(** * mcp-template: the operations of [src/index.ts] and the dispatch core

    The server of this repository registers four operations with a protocol
    server object (two tools, one prompt, one resource), connects the object
    to a stdio transport and exits with status 1 when startup fails.  This
    development embeds

    - the JavaScript values the handlers compute with: [number] is IEEE-754
      binary64, [+] is its round-to-nearest addition and a template literal
      renders a number with [Number::toString];
    - the four handlers, the registration sequence and [main], statement by
      statement, in a monad of console output and thrown errors;
    - the validator, registry and dispatcher the handlers are plugged into.
      These live in the protocol library, not in this repository, and are
      modelled from the specification (sections 4.2 to 4.4). *)

From Stdlib Require Import ZArith QArith Qround List String Ascii Bool Lia.
From Stdlib Require Import DecimalString PrimFloat FloatOps SpecFloat FloatAxioms.
From Stdlib Require Import Qpower.
From Stdlib Require DecimalFacts DecimalPos DecimalN.
Import ListNotations.

Close Scope Q_scope.
Open Scope list_scope.
Open Scope string_scope.

(** ** JavaScript values *)

Module JS.

(** A JavaScript [number] is a binary64 floating-point value. *)
Definition number : Set := float.

(** [a + b] on two numbers: binary64 addition, round to nearest, ties to
    even. *)
Definition js_add (a b : number) : number := PrimFloat.add a b.

(** The decimal digits of a non-negative integer. *)
Definition decimal (n : Z) : string :=
  NilZero.string_of_uint (N.to_uint (Z.to_N n)).

Fixpoint zeros (n : nat) : string :=
  match n with
  | O => ""
  | S n' => String "0" (zeros n')
  end.

(** [rounds_to m e q]: the rational [q] converts to the number [m * 2^e]
    (with [m] the 53-bit, or subnormal, significand): it lies between the
    midpoints to the two neighbouring numbers, the midpoints themselves
    included when [m] is even.  Below a power of two the neighbour is half
    as far. *)
Definition rounds_to (m : positive) (e : Z) (q : Q) : bool :=
  let below :=
    if (Pos.eqb m 4503599627370496 && Z.ltb (-1074) e)%bool then 1%Z else 2%Z in
  let lo := (inject_Z (4 * Zpos m - below) * (2 # 1) ^ (e - 2))%Q in
  let hi := (inject_Z (4 * Zpos m + 2) * (2 # 1) ^ (e - 2))%Q in
  if Z.even (Zpos m)
  then (Qle_bool lo q && Qle_bool q hi)%bool
  else (negb (Qle_bool q lo) && negb (Qle_bool hi q))%bool.

(** The least [n], searching upwards, with [v < 10^n]. *)
Fixpoint decimal_exponent (fuel : nat) (n : Z) (v : Q) : Z :=
  match fuel with
  | O => n
  | S fuel' =>
      if negb (Qle_bool ((10 # 1) ^ n) v) then n
      else decimal_exponent fuel' (n + 1)%Z v
  end.

(** Step 5 of [Number::toString]: integers [s] and [n] with [s] of [k]
    digits, [s * 10^(n-k)] converting to the number, and [k] as small as
    possible; of two candidates the closer one, the even one on a tie. *)
Fixpoint shortest (fuel : nat) (k : Z) (m : positive) (e : Z) (n : Z) : Z * Z :=
  let v := (inject_Z (Zpos m) * (2 # 1) ^ e)%Q in
  let unit := ((10 # 1) ^ (n - k))%Q in
  let s := Qfloor (v / unit) in
  let down := (inject_Z s * unit)%Q in
  let up := (inject_Z (s + 1) * unit)%Q in
  let pick (t : Z) := if Z.eqb t (10 ^ k) then (1%Z, (n + 1)%Z) else (t, n) in
  match fuel with
  | O => pick s
  | S fuel' =>
      match rounds_to m e down, rounds_to m e up with
      | true, false => pick s
      | false, true => pick (s + 1)%Z
      | true, true =>
          match ((v - down) ?= (up - v))%Q with
          | Lt => pick s
          | Gt => pick (s + 1)%Z
          | Eq => if Z.even s then pick s else pick (s + 1)%Z
          end
      | false, false => shortest fuel' (k + 1)%Z m e n
      end
  end.

(** Steps 6 to 10 of [Number::toString]: plain digits, a decimal point,
    leading zeros, or exponent notation outside [1e-7 .. 1e21]. *)
Definition layout (digits : string) (n : Z) : string :=
  let k := Z.of_nat (String.length digits) in
  if ((k <=? n) && (n <=? 21))%Z then
    digits ++ zeros (Z.to_nat (n - k))
  else if ((0 <? n) && (n <=? 21))%Z then
    substring 0 (Z.to_nat n) digits ++ "." ++
    substring (Z.to_nat n) (Z.to_nat (k - n)) digits
  else if ((-6 <? n) && (n <=? 0))%Z then
    "0." ++ zeros (Z.to_nat (- n)) ++ digits
  else
    let e := (n - 1)%Z in
    let mantissa :=
      if (k =? 1)%Z then digits
      else substring 0 1 digits ++ "." ++ substring 1 (Z.to_nat (k - 1)) digits in
    mantissa ++ "e" ++ (if (e <? 0)%Z then "-" else "+") ++ decimal (Z.abs e).

(** [Number::toString(x)] in radix 10, the conversion a template literal
    [${x}] applies to a number. *)
Definition number_to_string (x : number) : string :=
  match Prim2SF x with
  | S754_nan => "NaN"
  | S754_zero _ => "0"
  | S754_infinity false => "Infinity"
  | S754_infinity true => "-Infinity"
  | S754_finite sign m e =>
      let v := (inject_Z (Zpos m) * (2 # 1) ^ e)%Q in
      let n := decimal_exponent 640 (-324) v in
      let '(s, n') := shortest 17 1 m e n in
      (if sign then "-" else "") ++ layout (decimal s) n'
  end.

(** The values a decoded request can carry. *)
#[warnings="-register-all"] Inductive JsValue : Type :=
| JNull
| JBoolean (b : bool)
| JNumber (n : number)
| JString (s : string)
| JArray (items : list JsValue)
| JObject (fields : list (string * JsValue)).

(** An object as its own properties, in insertion order. *)
Definition JsObject : Type := list (string * JsValue).

Fixpoint get (key : string) (o : JsObject) : option JsValue :=
  match o with
  | [] => None
  | (k, v) :: o' => if String.eqb k key then Some v else get key o'
  end.

(** A [URL] object; only its [href] is read. *)
Record URL : Type := { href : string }.

End JS.

Import JS.

(** ** Results of the operations *)

(** [{ type: "text", text }] *)
Record TextContent : Type := { type : string; text : string }.

Module Prompt.
(** [{ role, content }] *)
Record Message : Type := { role : string; content : TextContent }.
End Prompt.

Module Resource.
(** [{ uri, text }] *)
Record Contents : Type := { uri : string; text : string }.
End Resource.

(** What a handler returns: [{ content, isError? }] from a tool,
    [{ messages }] from a prompt, [{ contents, isError? }] from a resource.
    An absent [isError] is [None]. *)
Inductive Result : Type :=
| ToolResult (content : list TextContent) (isError : option bool)
| PromptResult (messages : list Prompt.Message)
| ResourceResult (contents : list Resource.Contents) (isError : option bool).

Definition isError (r : Result) : option bool :=
  match r with
  | ToolResult _ flag => flag
  | PromptResult _ => None
  | ResourceResult _ flag => flag
  end.

(** ** Errors, requests and responses (specification, sections 3, 6 and 7) *)

(** The runtime types a schema can declare. *)
Inductive JsType : Type := TString | TNumber | TBoolean | TNull | TArray | TObject.

Inductive Reason : Type := Missing | WrongType (actual : JsType).

(** Modelled from the spec: section 3, a validation result lists field-level
    violations (field name, expected type, reason); the validator is the
    protocol library's. *)
Record Violation : Type :=
  { field : string; expected : JsType; reason : Reason }.

(** Modelled from the spec: the error taxonomy of section 7 (the registry and
    dispatcher that raise these are the protocol library's), and [JsError]
    for any other thrown [Error] object ([name] and [message]). *)
Inductive Error : Type :=
| DuplicateOperationError (name : string)
| UnknownOperationError (name : string)
| ValidationError (violations : list Violation)
| HandlerError (cause : string)
| TransportError (cause : string)
| JsError (name message : string).

(** Modelled from the spec: section 3, the caller-supplied correlation id is
    an opaque string or number. *)
Inductive CorrelationId : Type :=
| IdString (s : string)
| IdNumber (n : Z).

(** Modelled from the spec: sections 3 and 6, a request holds a correlation
    id, an operation name and a parameter object. *)
Record Request : Type :=
  { id : CorrelationId; op : string; params : JsObject }.

(** Modelled from the spec: sections 3 and 6, a response repeats the
    request's id and carries the content blocks with the optional [isError];
    an error response also names the error kind with its details. *)
Record Response : Type :=
  { response_id : CorrelationId; result : Result; error : option Error }.

(** ** Console output and thrown errors *)

(** What the code can change: the lines [console.error] has written on the
    diagnostic channel and, as a record of control flow, the names of the
    handlers that were called. *)
Record World : Type := { stderr : list string; invoked : list string }.

Definition initial : World := {| stderr := []; invoked := [] |}.

(** A statement completes normally with a value or abruptly with what was
    thrown. *)
Inductive outcome (X A : Type) : Type :=
| Normal (value : A)
| Abrupt (thrown : X).

Arguments Normal {X A} value.
Arguments Abrupt {X A} thrown.

Definition M (X A : Type) : Type := World -> outcome X A * World.

Definition ret {X A : Type} (a : A) : M X A := fun w => (Normal a, w).

Definition throw {X A : Type} (x : X) : M X A := fun w => (Abrupt x, w).

Definition bind {X A B : Type} (c : M X A) (k : A -> M X B) : M X B :=
  fun w =>
    match c w with
    | (Normal a, w') => k a w'
    | (Abrupt x, w') => (Abrupt x, w')
    end.

Notation "x <- c ;; k" := (bind c (fun x => k))
  (at level 61, c at next level, right associativity).
Notation "c ;; k" := (bind c (fun _ => k))
  (at level 61, right associativity).

(** [try { body } catch (error) { handler }]: the handler may end in another
    way than the body can. *)
Definition try_catch {X Y A : Type} (body : M X A) (handler : X -> M Y A) : M Y A :=
  fun w =>
    match body w with
    | (Normal a, w') => (Normal a, w')
    | (Abrupt x, w') => handler x w'
    end.

(** [console.error(line)]: appends to the diagnostic channel, never throws. *)
Definition console_error {X : Type} (line : string) : M X unit :=
  fun w =>
    (Normal tt,
     {| stderr := (stderr w ++ [line])%list; invoked := invoked w |}).

Definition nl : string := String (ascii_of_nat 10) "".
Definition dquote : string := String (ascii_of_nat 34) "".
Definition lines (l : list string) : string := String.concat nl l.

Definition type_name (t : JsType) : string :=
  match t with
  | TString => "string"
  | TNumber => "number"
  | TBoolean => "boolean"
  | TNull => "null"
  | TArray => "array"
  | TObject => "object"
  end.

Definition violation_to_string (v : Violation) : string :=
  match reason v with
  | Missing => field v ++ ": required " ++ type_name (expected v) ++ " is missing"
  | WrongType actual =>
      field v ++ ": expected " ++ type_name (expected v) ++ ", received " ++ type_name actual
  end.

Definition error_name (e : Error) : string :=
  match e with
  | DuplicateOperationError _ => "DuplicateOperationError"
  | UnknownOperationError _ => "UnknownOperationError"
  | ValidationError _ => "ValidationError"
  | HandlerError _ => "HandlerError"
  | TransportError _ => "TransportError"
  | JsError name _ => name
  end.

Definition error_message (e : Error) : string :=
  match e with
  | DuplicateOperationError name => name ++ " is already registered"
  | UnknownOperationError name => name ++ " is not registered"
  | ValidationError violations => String.concat "; " (map violation_to_string violations)
  | HandlerError cause => cause
  | TransportError cause => cause
  | JsError _ message => message
  end.

(** [${error}]: [Error.prototype.toString]. *)
Definition error_to_string (e : Error) : string :=
  error_name e ++ ": " ++ error_message e.

(** How [console.error] and the runtime print an error object: its name and
    message (the stack trace that follows them is left out). *)
Definition inspect (e : Error) : string := error_to_string e.

(** ** The handlers of [src/index.ts] *)

(** Tool [add-numbers]: [async ({ a, b }) => ...]. *)
Definition add_numbers (a b : number) : M Error Result :=
  let sum := js_add a b in
  ret (ToolResult
         [ {| type := "text";
              text := "The sum of " ++ number_to_string a ++ " and " ++
                      number_to_string b ++ " is " ++ number_to_string sum |} ]
         None).

(** Tool [meeting-agenda-generator]:
    [async ({ meetingTitle, participants, duration }) => ...]. *)
Definition meeting_agenda_generator (meetingTitle participants duration : string)
  : M Error Result :=
  console_error ("[Tool] Generating meeting agenda for: " ++ meetingTitle) ;;
  let prompt :=
    lines
      [ "Create a structured agenda for a " ++ dquote ++ meetingTitle ++ dquote ++
        " meeting with " ++ participants ++ " that will last " ++ duration ++ ".";
        "";
        "The agenda should include:";
        "1. Meeting Objective (1-2 sentences)";
        "2. Discussion Topics (prioritized list with time allocations)";
        "3. Required Preparation for Participants";
        "4. Expected Outcomes/Deliverables";
        "5. Next Steps and Action Items Template";
        "";
        "Format the agenda to be clear, concise, and actionable. Ensure the timing works within the "
        ++ duration ++ " constraint." ] in
  ret (ToolResult [ {| type := "text"; text := prompt |} ] None).

(** Prompt [story-idea-generator]: [({ topics, genre, mood }) => ...]. *)
Definition story_idea_generator (topics genre mood : string) : M Error Result :=
  console_error
    ("[Prompt] Generating story ideas with topics: " ++ topics ++ ", genre: " ++ genre ++
     ", mood: " ++ mood) ;;
  ret (PromptResult
         [ {| Prompt.role := "user";
              Prompt.content :=
                {| type := "text";
                   text :=
                     lines
                       [ "You are a creative writing assistant specializing in generating unique and engaging story ideas. Provide detailed story concepts with potential plot points, character ideas, and thematic elements.";
                         "";
                         "I need creative story ideas that incorporate the following elements:";
                         "            ";
                         "Topics/Themes: " ++ topics;
                         "Genre: " ++ genre;
                         "Mood/Tone: " ++ mood;
                         "";
                         "Please generate 3 unique story ideas that blend these elements together. For each idea, include:";
                         "1. A compelling title";
                         "2. A brief premise (1-2 sentences)";
                         "3. Main character concept";
                         "4. Key plot points or story arc";
                         "5. Potential themes or messages";
                         "";
                         "Make the ideas distinct from each other and tailored specifically to my requirements." ]
                |} |} ]).

Section SampleText.

(** The constant imported from [./resources/sample.js]. *)
Variable sampleText : string.

(** The body of the [try] block of the [sample-text] handler. *)
Definition sample_text_try (uri : URL) : M Error Result :=
  console_error "[Resource] Successfully loaded sample text content" ;;
  ret (ResourceResult
         [ {| Resource.uri := href uri; Resource.text := sampleText |} ]
         None).

(** Its [catch (error)] block. *)
Definition sample_text_catch (uri : URL) (error : Error) : M Error Result :=
  console_error ("[Error] Failed to load sample text: " ++ error_to_string error) ;;
  ret (ResourceResult
         [ {| Resource.uri := href uri;
              Resource.text :=
                "Error: Failed to load sample text content. " ++ error_to_string error |} ]
         (Some true)).

(** Resource [sample-text]: [async (uri) => ...]. *)
Definition sample_text (uri : URL) : M Error Result :=
  console_error "[Resource] Providing sample text content" ;;
  try_catch (sample_text_try uri) (sample_text_catch uri).

End SampleText.

(** ** Schemas and descriptors (specification, section 3) *)

(** Modelled from the spec: section 3, a declared parameter of a schema has a
    type, a required flag and a description (the schemas of [src/index.ts]
    are built with the validation library's [z.number()] and [z.string()]). *)
Record FieldSpec : Type :=
  { field_type : JsType; required : bool; field_description : string }.

(** Modelled from the spec: section 3, a schema is an ordered mapping from
    parameter name to its declaration. *)
Definition Schema : Type := list (string * FieldSpec).

(** [z.number()], [z.string()] and [.describe(text)] as the registrations use
    them: a field declared this way is required. *)
Definition z_number : FieldSpec :=
  {| field_type := TNumber; required := true; field_description := "" |}.

Definition z_string : FieldSpec :=
  {| field_type := TString; required := true; field_description := "" |}.

Definition describe (text : string) (f : FieldSpec) : FieldSpec :=
  {| field_type := field_type f; required := required f; field_description := text |}.

(** Modelled from the spec: section 3, an operation descriptor holds a unique
    name, a description, a parameter schema and a handler. *)
Record Descriptor : Type :=
  { name : string;
    description : string;
    schema : Schema;
    handler : JsObject -> M Error Result }.

(** Modelled from the spec: section 2, the registry maps operation names to
    descriptors; it is kept in registration order. *)
Definition Registry : Type := list Descriptor.

(** ** Schema validator *)

Definition typeof (v : JsValue) : JsType :=
  match v with
  | JNull => TNull
  | JBoolean _ => TBoolean
  | JNumber _ => TNumber
  | JString _ => TString
  | JArray _ => TArray
  | JObject _ => TObject
  end.

Definition JsType_eqb (s t : JsType) : bool :=
  match s, t with
  | TString, TString | TNumber, TNumber | TBoolean, TBoolean
  | TNull, TNull | TArray, TArray | TObject, TObject => true
  | _, _ => false
  end.

(** Modelled from the spec: the validator is part of the protocol library,
    which is not in this repository.  Section 4.2: for a required field absent
    from the input a violation is recorded; for a present field whose runtime
    type disagrees with the declared type a violation is recorded. *)
Definition check_field (input : JsObject) (declared : string * FieldSpec)
  : list Violation :=
  let (key, spec) := declared in
  match get key input with
  | None =>
      if required spec
      then [ {| field := key; expected := field_type spec; reason := Missing |} ]
      else []
  | Some v =>
      if JsType_eqb (typeof v) (field_type spec) then []
      else [ {| field := key; expected := field_type spec;
                reason := WrongType (typeof v) |} ]
  end.

(** Modelled from the spec: section 4.2, the declared fields are iterated in
    their fixed order, every violation is recorded, and fields the schema does
    not declare are ignored. *)
Fixpoint violations (s : Schema) (input : JsObject) : list Violation :=
  match s with
  | [] => []
  | declared :: rest => (check_field input declared ++ violations rest input)%list
  end.

(** Modelled from the spec: section 4.2, [validate(schema, input)] returns the
    object when there is no violation and otherwise fails with a
    [ValidationError] that carries the whole list. *)
Definition validate (s : Schema) (input : JsObject) : M Error JsObject :=
  match violations s input with
  | [] => ret input
  | v :: vs => throw (ValidationError (v :: vs))
  end.

(** ** Registry *)

Definition registered (n : string) (reg : Registry) : bool :=
  existsb (fun d => String.eqb (name d) n) reg.

(** Modelled from the spec: the registry is part of the protocol library.
    Section 4.3: [register(name, description, schema, handler)] fails with
    [DuplicateOperationError] if the name is already present and otherwise
    inserts the descriptor. *)
Definition register (d : Descriptor) (reg : Registry) : M Error Registry :=
  if registered (name d) reg
  then throw (DuplicateOperationError (name d))
  else ret (reg ++ [d])%list.

(** Modelled from the spec: section 4.3, [lookup(name)] returns the descriptor
    or fails with [UnknownOperationError]. *)
Definition lookup (n : string) (reg : Registry) : M Error Descriptor :=
  match find (fun d => String.eqb (name d) n) reg with
  | Some d => ret d
  | None => throw (UnknownOperationError n)
  end.

(** The registration calls of a program, one after the other. *)
Fixpoint register_all (ds : list Descriptor) (reg : Registry) : M Error Registry :=
  match ds with
  | [] => ret reg
  | d :: rest => reg' <- register d reg ;; register_all rest reg'
  end.

(** ** Dispatcher *)

(** Modelled from the spec: sections 3 and 8, an error response repeats the
    request's id, has [isError] set and a text block that reports the error,
    and names the error kind with its details. *)
Definition error_response (rid : CorrelationId) (e : Error) : Response :=
  {| response_id := rid;
     result := ToolResult [ {| type := "text"; text := error_to_string e |} ] (Some true);
     error := Some e |}.

(** The world in which a handler starts when the dispatcher calls it. *)
Definition calling (d : Descriptor) (w : World) : World :=
  {| stderr := stderr w; invoked := (invoked w ++ [name d])%list |}.

(** Modelled from the spec: section 4.4, the dispatcher invokes the handler
    with the validated parameters; the call leaves a trace in [invoked]. *)
Definition invoke (d : Descriptor) (args : JsObject) : M Error Result :=
  fun w => handler d args (calling d w).

(** Modelled from the spec: the dispatcher is part of the protocol library.
    Section 4.4: look the operation up, validate the parameters, invoke the
    handler with the validated parameters and wrap its result; a failed
    lookup or validation and a handler that throws (a [HandlerError]) become
    an error response. *)
Definition dispatch (reg : Registry) (req : Request) : M Error Response :=
  try_catch
    (d <- lookup (op req) reg ;;
     args <- validate (schema d) (params req) ;;
     try_catch
       (r <- invoke d args ;;
        ret {| response_id := id req; result := r; error := None |})
       (fun e => throw (HandlerError (error_to_string e))))
    (fun e => ret (error_response (id req) e)).

(** Modelled from the spec: section 4.4, the runtime loop dispatches each
    received request and hands the response to the transport; the value is
    the sequence of responses sent. *)
Fixpoint serve (reg : Registry) (requests : list Request) : M Error (list Response) :=
  match requests with
  | [] => ret []
  | req :: rest =>
      response <- dispatch reg req ;;
      others <- serve reg rest ;;
      ret (response :: others)
  end.

(** ** The program [src/index.ts] *)

(** Reading a validated argument. *)
Definition get_number (key : string) (args : JsObject) : option number :=
  match get key args with
  | Some (JNumber n) => Some n
  | _ => None
  end.

Definition get_string (key : string) (args : JsObject) : option string :=
  match get key args with
  | Some (JString s) => Some s
  | _ => None
  end.

(** The callback of an operation is typed by its schema; arguments that do
    not have the schema's shape never reach it (see [validate]). *)
Definition ill_typed : Error := JsError "TypeError" "arguments do not match the schema".

(** [server.tool("add-numbers", ...)] *)
Definition add_numbers_tool : Descriptor :=
  {| name := "add-numbers";
     description := "For any addition operation to add two numbers together";
     schema :=
       [ ("a", describe "First number to add" z_number);
         ("b", describe "Second number to add" z_number) ];
     handler := fun args =>
       match get_number "a" args, get_number "b" args with
       | Some a, Some b => add_numbers a b
       | _, _ => throw ill_typed
       end |}.

(** [server.tool("meeting-agenda-generator", ...)] *)
Definition meeting_agenda_generator_tool : Descriptor :=
  {| name := "meeting-agenda-generator";
     description :=
       "Creates a prompt for generating a structured meeting agenda. User must provide meetingTitle, participants, and duration. If any are missing, ask the user to provide them.";
     schema :=
       [ ("meetingTitle", describe "Title or purpose of the meeting" z_string);
         ("participants", describe "Who will attend the meeting (roles or names)" z_string);
         ("duration",
          describe "Expected duration of the meeting (e.g., '30 minutes', '1 hour')" z_string) ];
     handler := fun args =>
       match get_string "meetingTitle" args, get_string "participants" args,
             get_string "duration" args with
       | Some meetingTitle, Some participants, Some duration =>
           meeting_agenda_generator meetingTitle participants duration
       | _, _, _ => throw ill_typed
       end |}.

(** [server.prompt("story-idea-generator", ...)] *)
Definition story_idea_generator_prompt : Descriptor :=
  {| name := "story-idea-generator";
     description :=
       "Generate creative and engaging story ideas based on provided topics, genre, target audience, and mood";
     schema :=
       [ ("topics",
          describe "Comma-separated list of topics or themes to incorporate into the story"
            z_string);
         ("genre",
          describe "Preferred genre for the story (fantasy, sci-fi, mystery, etc.)" z_string);
         ("mood",
          describe "Emotional tone of the story (dark, uplifting, humorous, etc.)" z_string) ];
     handler := fun args =>
       match get_string "topics" args, get_string "genre" args, get_string "mood" args with
       | Some topics, Some genre, Some mood => story_idea_generator topics genre mood
       | _, _, _ => throw ill_typed
       end |}.

(** What ends a program: an exception nobody caught, or [process.exit]. *)
Inductive Halt : Type :=
| Uncaught (e : Error)
| Exited (code : Z).

(** [process.exit(code)] *)
Definition process_exit {A : Type} (code : Z) : M Halt A := throw (Exited code).

(** A statement at the top level of the module: what it throws is caught by
    nothing. *)
Definition toplevel {A : Type} (c : M Error A) : M Halt A :=
  try_catch c (fun e => throw (Uncaught e)).

(** What the transport library does when [main] calls it: each call returns,
    or throws the given error. *)
Record Env : Type :=
  { transport_error : option Error; connect_error : option Error }.

Definition fails {X : Type} (failure : option X) : M X unit :=
  match failure with
  | None => ret tt
  | Some e => throw e
  end.

(** [new StdioServerTransport()] *)
Definition new_StdioServerTransport (env : Env) : M Error unit :=
  fails (transport_error env).

(** [await server.connect(transport)] *)
Definition server_connect (env : Env) (server : Registry) (transport : unit)
  : M Error unit :=
  fails (connect_error env).

(** [async function main()] *)
Definition main (env : Env) (server : Registry) : M Halt unit :=
  try_catch
    (console_error "MCP Template Server starting..." ;;
     transport <- new_StdioServerTransport env ;;
     server_connect env server transport ;;
     console_error "MCP Template Server running...")
    (fun error =>
       console_error ("Error starting MCP Template Server: " ++ inspect error) ;;
       process_exit 1).

(** A program of the shape of [src/index.ts]: a new server with nothing
    registered, the registration calls at the top level, then [main()].
    ([dotenv.config()] loads environment variables that nothing here
    reads.) *)
Definition program (operations : list Descriptor) (env : Env) : M Halt Registry :=
  server <- toplevel (register_all operations []) ;;
  main env server ;;
  ret server.

(** A process: its diagnostic output, the responses it has sent on the
    protocol channel, and its exit status once it has one. *)
Record Process : Type :=
  { world : World; sent : list Response; exit_code : option Z }.

(** The runtime prints an uncaught exception and ends the process with
    status 1. *)
Definition crash (e : Error) (w : World) (responses : list Response) : Process :=
  {| world := snd (console_error (X := Halt) (inspect e) w);
     sent := responses;
     exit_code := Some 1%Z |}.

(** The runtime: it runs the module; an uncaught exception is printed on the
    diagnostic channel and ends the process with status 1, [process.exit]
    ends it with the given status; otherwise the connected server serves the
    requests that arrive. *)
Definition node (script : M Halt Registry) (requests : list Request) : Process :=
  match script initial with
  | (Normal server, w) =>
      match serve server requests w with
      | (Normal responses, w') =>
          {| world := w'; sent := responses; exit_code := None |}
      | (Abrupt e, w') => crash e w' []
      end
  | (Abrupt (Uncaught e), w) => crash e w []
  | (Abrupt (Exited code), w) => {| world := w; sent := []; exit_code := Some code |}
  end.

Section Server.

Variable sampleText : string.

(** [server.resource("sample-text", "sample://text", ...)]: the callback
    receives the resource's URL. *)
Definition sample_text_resource : Descriptor :=
  {| name := "sample-text";
     description := "";
     schema := [];
     handler := fun _ => sample_text sampleText {| href := "sample://text" |} |}.

(** The registrations of [src/index.ts], in program order. *)
Definition operations : list Descriptor :=
  [ add_numbers_tool; meeting_agenda_generator_tool; story_idea_generator_prompt;
    sample_text_resource ].

Definition index_ts (env : Env) : M Halt Registry := program operations env.

End Server.

(** ** Vocabulary of the statements *)

(** The integer a number stands for, when it stands for one. *)
Definition integer_value (x : number) : option Z :=
  match Prim2SF x with
  | S754_zero _ => Some 0%Z
  | S754_finite sign m e =>
      let magnitude :=
        if (0 <=? e)%Z then Some (Zpos m * 2 ^ e)%Z
        else if (Zpos m mod 2 ^ (- e) =? 0)%Z then Some (Zpos m / 2 ^ (- e))%Z
        else None in
      option_map (fun z => if sign then (- z)%Z else z) magnitude
  | _ => None
  end.

Definition integer_to_string (z : Z) : string :=
  (if (z <? 0)%Z then "-" else "") ++ decimal (Z.abs z).

(** The specification's wording of the [add-numbers] text, for operands that
    are integers: "The sum of <a> and <b> is <s>" with [s] the arithmetic
    sum. *)
Definition arithmetic_sum_text (a b : number) : option string :=
  match integer_value a, integer_value b with
  | Some x, Some y =>
      Some ("The sum of " ++ integer_to_string x ++ " and " ++ integer_to_string y ++
            " is " ++ integer_to_string (x + y))
  | _, _ => None
  end.

(** The text the handler builds. *)
Definition sum_text (a b : number) : string :=
  "The sum of " ++ number_to_string a ++ " and " ++ number_to_string b ++ " is " ++
  number_to_string (js_add a b).

(** A declared field is violated by an input: it is required and absent, or
    present with another runtime type than the declared one. *)
Definition violated (input : JsObject) (key : string) (spec : FieldSpec) : Prop :=
  (get key input = None /\ required spec = true) \/
  (exists v, get key input = Some v /\ typeof v <> field_type spec).

(** [n] calls in a row, with their results. *)
Fixpoint times {X A : Type} (n : nat) (c : M X A) : M X (list A) :=
  match n with
  | O => ret []
  | S n' => a <- c ;; rest <- times n' c ;; ret (a :: rest)
  end.

(** The first name, in program order, that a sequence of registrations
    registers a second time. *)
Fixpoint first_duplicate (seen : list string) (ds : list Descriptor) : option string :=
  match ds with
  | [] => None
  | d :: rest =>
      if existsb (String.eqb (name d)) seen then Some (name d)
      else first_duplicate (seen ++ [name d])%list rest
  end.

(** The first startup step that fails: a registration, the construction of
    the transport, or the connection. *)
Definition startup_failure (ds : list Descriptor) (env : Env) : option Error :=
  match first_duplicate [] ds with
  | Some n => Some (DuplicateOperationError n)
  | None =>
      match transport_error env with
      | Some e => Some e
      | None => connect_error env
      end
  end.

(** The line [main] writes when a startup step fails with [e]. *)
Definition main_diagnostic (e : Error) : string :=
  "Error starting MCP Template Server: " ++ inspect e.

(** An operation whose handler throws, and one whose handler returns an error
    result, to exercise the dispatcher. *)
Definition throwing_tool : Descriptor :=
  {| name := "throwing";
     description := "";
     schema := [];
     handler := fun _ => throw (JsError "Error" "out of service") |}.

Definition refusing_tool : Descriptor :=
  {| name := "refusing";
     description := "";
     schema := [];
     handler := fun _ =>
       ret (ToolResult [ {| type := "text"; text := "refused" |} ] (Some true)) |}.

(** The world after some more diagnostic lines. *)
Definition logged (ls : list string) (w : World) : World :=
  {| stderr := (stderr w ++ ls)%list; invoked := invoked w |}.

(** The requests of the specification's scenarios. *)
Definition scenario_1 : Request :=
  {| id := IdString "1"; op := "add-numbers";
     params := [ ("a", JNumber 2%float); ("b", JNumber 3%float) ] |}.

Definition scenario_2 : Request :=
  {| id := IdString "2"; op := "add-numbers";
     params := [ ("a", JString "x"); ("b", JNumber 3%float) ] |}.

Definition scenario_3 : Request :=
  {| id := IdString "3"; op := "nonexistent-op"; params := [] |}.

(** ** Numbers that stand for integers *)

(** [scaled m e v]: the integer [v] is [m * 2^e]. *)
Definition scaled (m e v : Z) : Prop :=
  (m * 2 ^ Z.max 0 e = v * 2 ^ Z.max 0 (- e))%Z.

(** [integer_value] on the decoded form of a number. *)
Definition sf_integer (f : spec_float) : option Z :=
  match f with
  | S754_zero _ => Some 0%Z
  | S754_finite sign m e =>
      let magnitude :=
        if (0 <=? e)%Z then Some (Zpos m * 2 ^ e)%Z
        else if (Zpos m mod 2 ^ (- e) =? 0)%Z then Some (Zpos m / 2 ^ (- e))%Z
        else None in
      option_map (fun z => if sign then (- z)%Z else z) magnitude
  | _ => None
  end.

(** The digit [r] as a numeral of one digit. *)
Definition digit_uint (r : N) : Decimal.uint :=
  match r with
  | 0 => Decimal.D0 Decimal.Nil
  | 1 => Decimal.D1 Decimal.Nil
  | 2 => Decimal.D2 Decimal.Nil
  | 3 => Decimal.D3 Decimal.Nil
  | 4 => Decimal.D4 Decimal.Nil
  | 5 => Decimal.D5 Decimal.Nil
  | 6 => Decimal.D6 Decimal.Nil
  | 7 => Decimal.D7 Decimal.Nil
  | 8 => Decimal.D8 Decimal.Nil
  | _ => Decimal.D9 Decimal.Nil
  end%N.

(** ** The rate limiter and the priority labels of the development rules

    The rules for extending this server (the repository's guide for new
    tools) carry a rate limiter for calls to external services and a helper
    that labels a task priority. *)

(** [a - b], [a > b] and [a >= b] on numbers. *)
Definition js_sub (a b : number) : number := PrimFloat.sub a b.

Definition js_gt (a b : number) : bool := PrimFloat.ltb b a.

Definition js_ge (a b : number) : bool := PrimFloat.leb b a.

(** [class RateLimiter]: its two private fields and its two constructor
    parameters. *)
Record RateLimiter : Type :=
  { lastRequestTime : number;
    requestsInWindow : number;
    maxRequests : number;
    timeWindowMs : number }.

(** [new RateLimiter(maxRequests, timeWindowMs)] *)
Definition new_RateLimiter (maxRequests timeWindowMs : number) : RateLimiter :=
  {| lastRequestTime := 0%float;
     requestsInWindow := 0%float;
     maxRequests := maxRequests;
     timeWindowMs := timeWindowMs |}.

(** What [Date.now()] returns when [throttle] is called and, if the call
    waits, what it returns once the timer has fired. *)
Record Clock : Type := { now : number; resumed : number }.

(** The limiter after a call of [throttle], and the delay the call gave to
    [setTimeout] if it waited. *)
Record Throttled : Type := { limiter : RateLimiter; waited : option number }.

(** [async throttle(): Promise<void>] *)
Definition throttle (clock : Clock) (this : RateLimiter) : M Error Throttled :=
  let now := now clock in
  let timeElapsed := js_sub now (lastRequestTime this) in
  if js_gt timeElapsed (timeWindowMs this) then
    ret {| limiter :=
             {| lastRequestTime := now;
                requestsInWindow := 0%float;
                maxRequests := maxRequests this;
                timeWindowMs := timeWindowMs this |};
           waited := None |}
  else if js_ge (requestsInWindow this) (maxRequests this) then
    let waitTime := js_sub (timeWindowMs this) timeElapsed in
    console_error ("[Rate Limit] Throttling for " ++ number_to_string waitTime ++ "ms") ;;
    ret {| limiter :=
             {| lastRequestTime := resumed clock;
                requestsInWindow := 0%float;
                maxRequests := maxRequests this;
                timeWindowMs := timeWindowMs this |};
           waited := Some waitTime |}
  else
    ret {| limiter :=
             {| lastRequestTime := lastRequestTime this;
                requestsInWindow := js_add (requestsInWindow this) 1%float;
                maxRequests := maxRequests this;
                timeWindowMs := timeWindowMs this |};
           waited := None |}.


(** [labels[priority]]: the element of an array at a number, when the number
    is one of its indices. *)
Definition at_index {A : Type} (l : list A) (i : number) : option A :=
  match integer_value i with
  | Some z => if (0 <=? z)%Z then nth_error l (Z.to_nat z) else None
  | None => None
  end.

(** [value || fallback] on a string that may be undefined: the empty string
    counts as absent. *)
Definition or_else (value : option string) (fallback : string) : string :=
  match value with
  | Some s => if String.eqb s "" then fallback else s
  | None => fallback
  end.

(** [function getPriorityLabel(priority: number): string] *)
Definition getPriorityLabel (priority : number) : string :=
  let labels := ["(No priority)"; "(Low)"; "(Medium)"; "(High)"; "(Urgent)"] in
  or_else (at_index labels priority) "".

(** * Properties *)

Arguments number_to_string : simpl never.
Arguments js_add : simpl never.

(** ** The monad *)

Lemma bind_normal {X A B : Type} (c : M X A) (k : A -> M X B) (w w' : World) (a : A) :
  c w = (Normal a, w') -> bind c k w = k a w'.
Proof. intros H. unfold bind. now rewrite H. Qed.

Lemma bind_abrupt {X A B : Type} (c : M X A) (k : A -> M X B) (w w' : World) (x : X) :
  c w = (Abrupt x, w') -> bind c k w = (Abrupt x, w').
Proof. intros H. unfold bind. now rewrite H. Qed.

Lemma try_catch_normal {X Y A : Type} (body : M X A) (h : X -> M Y A)
      (w w' : World) (a : A) :
  body w = (Normal a, w') -> try_catch body h w = (Normal a, w').
Proof. intros H. unfold try_catch. now rewrite H. Qed.

Lemma try_catch_abrupt {X Y A : Type} (body : M X A) (h : X -> M Y A)
      (w w' : World) (x : X) :
  body w = (Abrupt x, w') -> try_catch body h w = h x w'.
Proof. intros H. unfold try_catch. now rewrite H. Qed.

Lemma world_eta (w : World) :
  {| stderr := stderr w; invoked := invoked w |} = w.
Proof. now destruct w. Qed.

(** ** The [add-numbers] handler *)

Lemma add_numbers_returns (a b : number) (w : World) :
  add_numbers a b w =
  (Normal (ToolResult [ {| type := "text"; text := sum_text a b |} ] None), w).
Proof. reflexivity. Qed.

Lemma times_add_numbers (n : nat) (a b : number) (w : World) :
  times n (add_numbers a b) w =
  (Normal (repeat (ToolResult [ {| type := "text"; text := sum_text a b |} ] None) n), w).
Proof.
  induction n as [| n IH]; [reflexivity |].
  cbn [times repeat].
  rewrite (bind_normal _ _ _ _ _ (add_numbers_returns a b w)).
  now rewrite (bind_normal _ _ _ _ _ IH).
Qed.

(** ** The [sample-text] handler *)

Section SampleTextProperties.

Variable sampleText : string.

Lemma sample_text_try_returns (uri : URL) (w : World) :
  sample_text_try sampleText uri w =
  (Normal (ResourceResult
             [ {| Resource.uri := href uri; Resource.text := sampleText |} ] None),
   {| stderr := (stderr w ++ ["[Resource] Successfully loaded sample text content"])%list;
      invoked := invoked w |}).
Proof. reflexivity. Qed.

Lemma sample_text_returns (uri : URL) (w : World) :
  sample_text sampleText uri w =
  (Normal (ResourceResult
             [ {| Resource.uri := href uri; Resource.text := sampleText |} ] None),
   {| stderr := ((stderr w ++ ["[Resource] Providing sample text content"]) ++
                 ["[Resource] Successfully loaded sample text content"])%list;
      invoked := invoked w |}).
Proof. reflexivity. Qed.

End SampleTextProperties.

(** ** The validator *)

Lemma JsType_eqb_eq (s t : JsType) : JsType_eqb s t = true <-> s = t.
Proof. destruct s, t; cbn; split; intros H; congruence. Qed.

Lemma check_field_nil (input : JsObject) (key : string) (spec : FieldSpec) :
  check_field input (key, spec) = [] <-> ~ violated input key spec.
Proof.
  unfold check_field, violated.
  destruct (get key input) as [v |] eqn:Hget.
  - destruct (JsType_eqb (typeof v) (field_type spec)) eqn:Hty.
    + apply JsType_eqb_eq in Hty. split; [| reflexivity].
      intros _ [[H _] | [v' [H Hne]]]; [discriminate |].
      injection H as <-. now apply Hne.
    + split; [discriminate |].
      intros Hnot. exfalso. apply Hnot. right. exists v. split; [reflexivity |].
      intros Heq. apply JsType_eqb_eq in Heq. congruence.
  - destruct (required spec) eqn:Hreq.
    + split; [discriminate |]. intros Hnot. exfalso. apply Hnot. now left.
    + split; [| reflexivity].
      intros _ [[_ H] | [v [H _]]]; discriminate.
Qed.

Lemma check_field_names (input : JsObject) (key : string) (spec : FieldSpec) (v : Violation) :
  In v (check_field input (key, spec)) -> field v = key /\ expected v = field_type spec.
Proof.
  unfold check_field.
  destruct (get key input) as [x |].
  - destruct (JsType_eqb (typeof x) (field_type spec)); cbn; [tauto |].
    intros [<- | []]. now split.
  - destruct (required spec); cbn; [| tauto].
    intros [<- | []]. now split.
Qed.

Lemma check_field_reports (input : JsObject) (key : string) (spec : FieldSpec) :
  violated input key spec -> In key (map field (check_field input (key, spec))).
Proof.
  intros Hv.
  destruct (check_field input (key, spec)) as [| v vs] eqn:Hc.
  - apply check_field_nil in Hc. contradiction.
  - left. apply (check_field_names input key spec v). rewrite Hc. now left.
Qed.

Lemma violations_report (s : Schema) (input : JsObject) (key : string) (spec : FieldSpec) :
  In (key, spec) s -> violated input key spec ->
  In key (map field (violations s input)).
Proof.
  induction s as [| declared rest IH]; intros Hin Hv; [contradiction |].
  cbn [violations]. rewrite map_app. apply in_or_app.
  destruct Hin as [-> | Hin].
  - left. now apply check_field_reports.
  - right. now apply IH.
Qed.

Lemma violations_declared (s : Schema) (input : JsObject) (v : Violation) :
  In v (violations s input) ->
  exists spec, In (field v, spec) s /\ violated input (field v) spec.
Proof.
  induction s as [| [key spec] rest IH]; [contradiction |].
  cbn [violations]. intros Hin. apply in_app_or in Hin as [Hin | Hin].
  - destruct (check_field_names _ _ _ _ Hin) as [Hf _].
    exists spec. rewrite Hf. split; [now left |].
    destruct (check_field input (key, spec)) eqn:Hc; [contradiction |].
    assert (Hne : check_field input (key, spec) <> []) by (rewrite Hc; discriminate).
    unfold violated. unfold check_field in Hne.
    destruct (get key input) as [x |].
    + right. exists x. split; [reflexivity |].
      destruct (JsType_eqb (typeof x) (field_type spec)) eqn:Hty; [now contradiction Hne |].
      intros Heq. apply JsType_eqb_eq in Heq. congruence.
    + left. split; [reflexivity |].
      destruct (required spec); [reflexivity | now contradiction Hne].
  - destruct (IH Hin) as [spec' [Hs Hv]]. exists spec'. split; [now right | exact Hv].
Qed.

Lemma violations_nil (s : Schema) (input : JsObject) :
  violations s input = [] <->
  (forall key spec, In (key, spec) s -> ~ violated input key spec).
Proof.
  split.
  - intros Hnil key spec Hin Hv.
    pose proof (violations_report s input key spec Hin Hv) as H.
    now rewrite Hnil in H.
  - intros Hall. destruct (violations s input) as [| v vs] eqn:Hvs; [reflexivity |].
    destruct (violations_declared s input v) as [spec [Hin Hv]]; [rewrite Hvs; now left |].
    exfalso. exact (Hall _ _ Hin Hv).
Qed.

Lemma validate_cases (s : Schema) (input : JsObject) (w : World) :
  validate s input w =
  match violations s input with
  | [] => (Normal input, w)
  | v :: vs => (Abrupt (ValidationError (v :: vs)), w)
  end.
Proof. unfold validate. now destruct (violations s input). Qed.

(** After a successful validation every required field is present with its
    declared type, so the typed callbacks receive what their schemas say. *)
Lemma validated_field (s : Schema) (input : JsObject) (key : string) (spec : FieldSpec) :
  In (key, spec) s -> required spec = true -> violations s input = [] ->
  exists v, get key input = Some v /\ typeof v = field_type spec.
Proof.
  intros Hin Hreq Hnil.
  pose proof (proj1 (violations_nil s input) Hnil key spec Hin) as Hnot.
  destruct (get key input) as [v |] eqn:Hget.
  - exists v. split; [reflexivity |].
    destruct (JsType_eqb (typeof v) (field_type spec)) eqn:Hty.
    + now apply JsType_eqb_eq.
    + exfalso. apply Hnot. right. exists v. split; [exact Hget |].
      intros Heq. apply JsType_eqb_eq in Heq. congruence.
  - exfalso. apply Hnot. left. now split.
Qed.

Lemma validated_number (s : Schema) (input : JsObject) (key text : string) :
  In (key, describe text z_number) s -> violations s input = [] ->
  exists n, get_number key input = Some n.
Proof.
  intros Hin Hnil.
  destruct (validated_field s input key _ Hin eq_refl Hnil) as [v [Hget Hty]].
  unfold get_number. rewrite Hget.
  destruct v; try discriminate Hty. now eexists.
Qed.

Lemma validated_string (s : Schema) (input : JsObject) (key text : string) :
  In (key, describe text z_string) s -> violations s input = [] ->
  exists x, get_string key input = Some x.
Proof.
  intros Hin Hnil.
  destruct (validated_field s input key _ Hin eq_refl Hnil) as [v [Hget Hty]].
  unfold get_string. rewrite Hget.
  destruct v; try discriminate Hty. now eexists.
Qed.

(** ** The registry *)

Lemma registered_find (n : string) (reg : Registry) :
  registered n reg = false <-> find (fun d => String.eqb (name d) n) reg = None.
Proof.
  unfold registered. induction reg as [| d reg IH]; cbn; [tauto |].
  destruct (String.eqb (name d) n); cbn; [split; discriminate | exact IH].
Qed.

Lemma registered_In (n : string) (reg : Registry) :
  registered n reg = true <-> In n (map name reg).
Proof.
  unfold registered. rewrite existsb_exists, in_map_iff. split.
  - intros [d [Hin Heq]]. apply String.eqb_eq in Heq. now exists d.
  - intros [d [Heq Hin]]. exists d. split; [exact Hin | now apply String.eqb_eq].
Qed.

Lemma find_name (n : string) (reg : Registry) (d : Descriptor) :
  find (fun d => String.eqb (name d) n) reg = Some d -> name d = n /\ In d reg.
Proof.
  intros H. apply find_some in H as [Hin Heq]. split; [now apply String.eqb_eq | exact Hin].
Qed.

Lemma register_cases (d : Descriptor) (reg : Registry) (w : World) :
  register d reg w =
  if registered (name d) reg
  then (Abrupt (DuplicateOperationError (name d)), w)
  else (Normal (reg ++ [d])%list, w).
Proof. unfold register. now destruct (registered (name d) reg). Qed.

Lemma find_absent_app {A : Type} (p : A -> bool) (l l' : list A) :
  find p l = None -> find p (l ++ l')%list = find p l'.
Proof.
  induction l as [| x l IH]; [reflexivity |].
  cbn. destruct (p x); [discriminate | exact IH].
Qed.

Lemma lookup_after_register (d : Descriptor) (reg : Registry) (w : World) :
  registered (name d) reg = false ->
  lookup (name d) (reg ++ [d])%list w = (Normal d, w).
Proof.
  intros H. apply registered_find in H. unfold lookup.
  rewrite (find_absent_app _ _ _ H). cbn. now rewrite String.eqb_refl.
Qed.

Lemma existsb_names (n : string) (reg : Registry) :
  existsb (String.eqb n) (map name reg) = registered n reg.
Proof.
  unfold registered. induction reg as [| d reg IH]; [reflexivity |].
  cbn. now rewrite IH, (String.eqb_sym n).
Qed.

(** The registration sequence stops at the first duplicate and otherwise
    appends every descriptor; it writes nothing. *)
Lemma register_all_cases (ds : list Descriptor) (reg : Registry) (w : World) :
  register_all ds reg w =
  match first_duplicate (map name reg) ds with
  | Some n => (Abrupt (DuplicateOperationError n), w)
  | None => (Normal (reg ++ ds)%list, w)
  end.
Proof.
  revert reg. induction ds as [| d rest IH]; intros reg.
  - cbn. now rewrite app_nil_r.
  - cbn [register_all first_duplicate]. rewrite existsb_names.
    unfold bind. rewrite register_cases.
    destruct (registered (name d) reg) eqn:Hreg; [reflexivity |].
    rewrite IH, map_app. cbn [map]. now rewrite <- app_assoc.
Qed.

Lemma first_duplicate_none (seen : list string) (ds : list Descriptor) :
  NoDup seen ->
  (first_duplicate seen ds = None <-> NoDup (seen ++ map name ds)%list).
Proof.
  revert seen. induction ds as [| d rest IH]; intros seen Hseen.
  - cbn. rewrite app_nil_r. tauto.
  - cbn [first_duplicate map].
    destruct (existsb (String.eqb (name d)) seen) eqn:Hex.
    + split; [discriminate |]. intros Hnd. exfalso.
      apply existsb_exists in Hex as [n [Hin Heq]]. apply String.eqb_eq in Heq. subst n.
      apply NoDup_remove_2 in Hnd. apply Hnd. apply in_or_app. now left.
    + assert (Hnot : ~ In (name d) seen).
      { intros Hin. apply Bool.not_true_iff_false in Hex. apply Hex.
        apply existsb_exists. exists (name d). split; [exact Hin | apply String.eqb_refl]. }
      assert (Hseen' : NoDup (seen ++ [name d])%list).
      { apply NoDup_app; [exact Hseen | repeat constructor; intros [] |].
        intros n Hn [<- | []]. contradiction. }
      rewrite (IH _ Hseen'), <- app_assoc. reflexivity.
Qed.

Lemma first_duplicate_NoDup (ds : list Descriptor) :
  first_duplicate [] ds = None <-> NoDup (map name ds).
Proof. apply (first_duplicate_none [] ds). constructor. Qed.

(** ** The dispatcher *)

Lemma lookup_cases (n : string) (reg : Registry) (w : World) :
  lookup n reg w =
  match find (fun d => String.eqb (name d) n) reg with
  | Some d => (Normal d, w)
  | None => (Abrupt (UnknownOperationError n), w)
  end.
Proof. unfold lookup. now destruct (find _ reg). Qed.

(** The four ways a request ends: unknown operation, invalid parameters,
    a handler that throws, a handler that returns. *)
Lemma dispatch_cases (reg : Registry) (req : Request) (w : World) :
  dispatch reg req w =
  match find (fun d => String.eqb (name d) (op req)) reg with
  | None => (Normal (error_response (id req) (UnknownOperationError (op req))), w)
  | Some d =>
      match violations (schema d) (params req) with
      | v :: vs => (Normal (error_response (id req) (ValidationError (v :: vs))), w)
      | [] =>
          match handler d (params req) (calling d w) with
          | (Normal r, w') =>
              (Normal {| response_id := id req; result := r; error := None |}, w')
          | (Abrupt e, w') =>
              (Normal (error_response (id req) (HandlerError (error_to_string e))), w')
          end
      end
  end.
Proof.
  unfold dispatch, try_catch at 1, bind at 1. rewrite lookup_cases.
  destruct (find _ reg) as [d |]; [| reflexivity].
  unfold bind at 1. rewrite validate_cases.
  destruct (violations (schema d) (params req)); [| reflexivity].
  unfold try_catch, bind, invoke, calling.
  now destruct (handler d (params req) _) as [[r | e] w'].
Qed.

Lemma dispatch_replies (reg : Registry) (req : Request) (w : World) :
  exists response w',
    dispatch reg req w = (Normal response, w') /\ response_id response = id req.
Proof.
  rewrite dispatch_cases.
  destruct (find _ reg) as [d |]; [| now eexists; eexists].
  destruct (violations (schema d) (params req)); [| now eexists; eexists].
  destruct (handler d (params req) (calling d w)) as [[r | e] w']; now eexists; eexists.
Qed.

Lemma serve_replies (reg : Registry) (requests : list Request) (w : World) :
  exists responses w',
    serve reg requests w = (Normal responses, w') /\
    map response_id responses = map id requests.
Proof.
  revert w. induction requests as [| req rest IH]; intros w.
  - now exists [], w.
  - destruct (dispatch_replies reg req w) as [response [w1 [Hd Hid]]].
    destruct (IH w1) as [others [w2 [Hs Hids]]].
    exists (response :: others), w2. split.
    + cbn [serve]. rewrite (bind_normal _ _ _ _ _ Hd), (bind_normal _ _ _ _ _ Hs).
      reflexivity.
    + cbn [map]. now rewrite Hid, Hids.
Qed.

(** The handlers of [src/index.ts] return whenever the dispatcher calls them:
    a request to this server ends without error, or with an unknown operation
    or a validation error. *)
Lemma operations_return (sampleText : string) (d : Descriptor) (args : JsObject) (w : World) :
  In d (operations sampleText) -> violations (schema d) args = [] ->
  exists r w', handler d args w = (Normal r, w').
Proof.
  intros Hin Hnil.
  destruct Hin as [<- | [<- | [<- | [<- | []]]]].
  - destruct (validated_number (schema add_numbers_tool) args "a" _
                (or_introl eq_refl) Hnil) as [a Ha].
    destruct (validated_number (schema add_numbers_tool) args "b" _
                (or_intror (or_introl eq_refl)) Hnil) as [b Hb].
    cbn [handler add_numbers_tool]. rewrite Ha, Hb. now do 2 eexists.
  - destruct (validated_string (schema meeting_agenda_generator_tool) args "meetingTitle" _
                (or_introl eq_refl) Hnil) as [x Hx].
    destruct (validated_string (schema meeting_agenda_generator_tool) args "participants" _
                (or_intror (or_introl eq_refl)) Hnil) as [y Hy].
    destruct (validated_string (schema meeting_agenda_generator_tool) args "duration" _
                (or_intror (or_intror (or_introl eq_refl))) Hnil) as [z Hz].
    cbn [handler meeting_agenda_generator_tool]. rewrite Hx, Hy, Hz. now do 2 eexists.
  - destruct (validated_string (schema story_idea_generator_prompt) args "topics" _
                (or_introl eq_refl) Hnil) as [x Hx].
    destruct (validated_string (schema story_idea_generator_prompt) args "genre" _
                (or_intror (or_introl eq_refl)) Hnil) as [y Hy].
    destruct (validated_string (schema story_idea_generator_prompt) args "mood" _
                (or_intror (or_intror (or_introl eq_refl))) Hnil) as [z Hz].
    cbn [handler story_idea_generator_prompt]. rewrite Hx, Hy, Hz. now do 2 eexists.
  - cbn [handler sample_text_resource]. rewrite sample_text_returns. now do 2 eexists.
Qed.

Lemma index_ts_dispatch (sampleText : string) (req : Request) (w : World) :
  exists response w',
    dispatch (operations sampleText) req w = (Normal response, w') /\
    match error response with
    | None | Some (UnknownOperationError _) | Some (ValidationError _) => True
    | Some _ => False
    end.
Proof.
  rewrite dispatch_cases.
  destruct (find _ (operations sampleText)) as [d |] eqn:Hf; [| now do 2 eexists].
  destruct (violations (schema d) (params req)) eqn:Hv; [| now do 2 eexists].
  apply find_name in Hf as [_ Hin].
  destruct (operations_return sampleText d (params req) (calling d w) Hin Hv) as [r [w' Hr]].
  rewrite Hr. now do 2 eexists.
Qed.

(** ** The program *)

Lemma main_cases (env : Env) (server : Registry) (w : World) :
  main env server w =
  match transport_error env with
  | Some e =>
      (Abrupt (Exited 1), logged ["MCP Template Server starting..."; main_diagnostic e] w)
  | None =>
      match connect_error env with
      | Some e =>
          (Abrupt (Exited 1),
           logged ["MCP Template Server starting..."; main_diagnostic e] w)
      | None =>
          (Normal tt,
           logged ["MCP Template Server starting..."; "MCP Template Server running..."] w)
      end
  end.
Proof.
  unfold main, new_StdioServerTransport, server_connect, try_catch, bind, logged,
    console_error, process_exit, main_diagnostic.
  destruct (transport_error env) as [e |]; cbn.
  - now rewrite <- app_assoc.
  - destruct (connect_error env) as [e |]; cbn; now rewrite <- app_assoc.
Qed.

Lemma program_cases (ds : list Descriptor) (env : Env) (w : World) :
  program ds env w =
  match first_duplicate [] ds with
  | Some n => (Abrupt (Uncaught (DuplicateOperationError n)), w)
  | None =>
      match main env ds w with
      | (Normal _, w') => (Normal ds, w')
      | (Abrupt h, w') => (Abrupt h, w')
      end
  end.
Proof.
  unfold program, toplevel, try_catch, bind, ret at 1.
  rewrite register_all_cases. cbn [map app].
  destruct (first_duplicate [] ds); [reflexivity |].
  now destruct (main env ds w) as [[[] | h] w'].
Qed.

Lemma node_cases (ds : list Descriptor) (env : Env) (requests : list Request) :
  let stopped (e : Error) :=
    {| world := logged ["MCP Template Server starting..."; main_diagnostic e] initial;
       sent := []; exit_code := Some 1%Z |} in
  let started :=
    logged ["MCP Template Server starting..."; "MCP Template Server running..."] initial in
  node (program ds env) requests =
  match first_duplicate [] ds with
  | Some n => crash (DuplicateOperationError n) initial []
  | None =>
      match transport_error env with
      | Some e => stopped e
      | None =>
          match connect_error env with
          | Some e => stopped e
          | None =>
              match serve ds requests started with
              | (Normal responses, w') =>
                  {| world := w'; sent := responses; exit_code := None |}
              | (Abrupt e, w') => crash e w' []
              end
          end
      end
  end.
Proof.
  cbv zeta. unfold node. rewrite program_cases, main_cases.
  destruct (first_duplicate [] ds) as [n |]; [reflexivity |].
  destruct (transport_error env) as [e |]; [reflexivity |].
  destruct (connect_error env) as [e |]; reflexivity.
Qed.

(** The program of this repository registers four distinct names, so only
    the transport can make its startup fail. *)
Lemma index_ts_startup (sampleText : string) (env : Env) :
  startup_failure (operations sampleText) env =
  match transport_error env with
  | Some e => Some e
  | None => connect_error env
  end.
Proof. reflexivity. Qed.

(** * The claims *)

(** ** Anchors of the number model *)

Example number_to_string_integers :
  map number_to_string [2; 3; 100; 9007199254740992; 1e21; -7]%float =
  ["2"; "3"; "100"; "9007199254740992"; "1e+21"; "-7"].
Proof. vm_compute. reflexivity. Qed.

Example number_to_string_fractions :
  map number_to_string
    [0x1.999999999999ap-4; 0x1.8p0; 0x1.ad7f29abcaf48p-24; 0x0.0000000000001p-1022]%float =
  ["0.1"; "1.5"; "1e-7"; "5e-324"].
Proof. vm_compute. reflexivity. Qed.

Example number_to_string_special :
  map number_to_string [infinity; neg_infinity; nan; neg_zero] =
  ["Infinity"; "-Infinity"; "NaN"; "0"].
Proof. vm_compute. reflexivity. Qed.

Example sum_text_of_fractions :
  sum_text 0x1.999999999999ap-4%float 0x1.999999999999ap-3%float =
  "The sum of 0.1 and 0.2 is 0.30000000000000004".
Proof. vm_compute. reflexivity. Qed.

(** ** C1 *)

(** C1, as the specification words it, fails: the operands 9007199254740992
    (2^53) and 1 are numbers the handler can receive, their arithmetic sum is
    9007199254740993, and the handler's text ends in 9007199254740992, the
    sum rounded to the nearest number. *)
Lemma add_numbers_rounds_the_sum :
  arithmetic_sum_text 9007199254740992%float 1%float =
    Some "The sum of 9007199254740992 and 1 is 9007199254740993" /\
  fst (add_numbers 9007199254740992%float 1%float initial) =
    Normal (ToolResult
              [ {| type := "text";
                   text := "The sum of 9007199254740992 and 1 is 9007199254740992" |} ]
              None) /\
  fst (add_numbers 9007199254740992%float 1%float initial) <>
    Normal (ToolResult
              [ {| type := "text";
                   text := "The sum of 9007199254740992 and 1 is 9007199254740993" |} ]
              None).
Proof.
  assert (H : fst (add_numbers 9007199254740992%float 1%float initial) =
              Normal (ToolResult
                        [ {| type := "text";
                             text := "The sum of 9007199254740992 and 1 is 9007199254740992" |} ]
                        None)) by (vm_compute; reflexivity).
  split; [vm_compute; reflexivity |]. split; [exact H |].
  rewrite H. intros Heq. discriminate Heq.
Qed.

(** C1 (amended): for every pair of numbers [a] and [b] the add-numbers
    handler returns a success result whose only block is the text
    "The sum of <a> and <b> is <s>", where <a>, <b> and <s> are the decimal
    renderings of [a], [b] and of their floating-point sum; a request for
    add-numbers whose parameters carry the numbers [a] and [b] is answered
    with that result under the request's id, without [isError]. *)
Theorem add_numbers_text (sampleText : string) (rid : CorrelationId) (args : JsObject)
        (a b : number) (w : World) :
  get "a" args = Some (JNumber a) ->
  get "b" args = Some (JNumber b) ->
  add_numbers a b w =
    (Normal (ToolResult
               [ {| type := "text";
                    text := "The sum of " ++ number_to_string a ++ " and " ++
                            number_to_string b ++ " is " ++
                            number_to_string (js_add a b) |} ]
               None), w) /\
  dispatch (operations sampleText) {| id := rid; op := "add-numbers"; params := args |} w =
    (Normal {| response_id := rid;
               result :=
                 ToolResult
                   [ {| type := "text";
                        text := "The sum of " ++ number_to_string a ++ " and " ++
                                number_to_string b ++ " is " ++
                                number_to_string (js_add a b) |} ]
                   None;
               error := None |},
     calling add_numbers_tool w).
Proof.
  intros Ha Hb. split; [reflexivity |].
  rewrite dispatch_cases.
  change (find _ (operations sampleText)) with (Some add_numbers_tool).
  cbn [op params id schema add_numbers_tool violations check_field describe z_number
       field_type required].
  rewrite Ha, Hb. cbn [typeof JsType_eqb app handler add_numbers_tool].
  unfold get_number. rewrite Ha, Hb. reflexivity.
Qed.

(** The first scenario of the specification. *)
Lemma add_numbers_scenario :
  dispatch (operations "") scenario_1 initial =
  (Normal {| response_id := IdString "1";
             result :=
               ToolResult [ {| type := "text"; text := "The sum of 2 and 3 is 5" |} ] None;
             error := None |},
   {| stderr := []; invoked := ["add-numbers"] |}).
Proof.
  unfold scenario_1.
  rewrite (proj2 (add_numbers_text "" (IdString "1")
                    [ ("a", JNumber 2%float); ("b", JNumber 3%float) ] 2%float 3%float initial
                    eq_refl eq_refl)).
  vm_compute. reflexivity.
Defined.

(** ** C2 *)

(** C2: when a declared field is violated, validation fails with a
    [ValidationError] whose list names every violated field of the schema, and
    when no declared field is violated the input object is returned as it
    is. *)
Theorem validate_lists_every_violation (s : Schema) (input : JsObject) (w : World) :
  ((exists key spec, In (key, spec) s /\ violated input key spec) ->
   exists vs,
     validate s input w = (Abrupt (ValidationError vs), w) /\
     forall key spec, In (key, spec) s -> violated input key spec -> In key (map field vs))
  /\
  ((forall key spec, In (key, spec) s -> ~ violated input key spec) ->
   validate s input w = (Normal input, w)).
Proof.
  rewrite validate_cases. split.
  - intros [key [spec [Hin Hv]]].
    pose proof (violations_report s input) as Hall.
    destruct (violations s input) as [| v vs].
    + destruct (Hall key spec Hin Hv).
    + exists (v :: vs). split; [reflexivity | exact Hall].
  - intros Hnone. apply violations_nil in Hnone. now rewrite Hnone.
Qed.

(** The schema of add-numbers, with both fields missing and with one field of
    the wrong type (the second scenario of the specification). *)
Example validate_add_numbers_empty :
  validate (schema add_numbers_tool) [] initial =
  (Abrupt (ValidationError
             [ {| field := "a"; expected := TNumber; reason := Missing |};
               {| field := "b"; expected := TNumber; reason := Missing |} ]),
   initial).
Proof. reflexivity. Qed.

Example dispatch_scenario_2 :
  dispatch (operations "") scenario_2 initial =
  (Normal {| response_id := IdString "2";
             result :=
               ToolResult
                 [ {| type := "text";
                      text := "ValidationError: a: expected number, received string" |} ]
                 (Some true);
             error :=
               Some (ValidationError
                       [ {| field := "a"; expected := TNumber;
                            reason := WrongType TString |} ]) |},
   initial).
Proof. reflexivity. Qed.

(** ** C3 *)

(** C3: a request for an operation that is not registered is answered with a
    response under the request's id, with [isError] true and the error kind
    [UnknownOperationError]; the world is left as it was, so no handler was
    invoked. *)
Theorem unknown_operation_is_reported (reg : Registry) (req : Request) (w : World) :
  registered (op req) reg = false ->
  exists response,
    dispatch reg req w = (Normal response, w) /\
    response_id response = id req /\
    isError (result response) = Some true /\
    error response = Some (UnknownOperationError (op req)).
Proof.
  intros H. apply registered_find in H.
  exists (error_response (id req) (UnknownOperationError (op req))).
  rewrite dispatch_cases, H. now repeat split.
Qed.

(** The third scenario of the specification. *)
Lemma unknown_operation_scenario :
  exists response,
    dispatch (operations "") scenario_3 initial = (Normal response, initial) /\
    response_id response = IdString "3" /\
    isError (result response) = Some true /\
    error response = Some (UnknownOperationError "nonexistent-op").
Proof. exact (unknown_operation_is_reported (operations "") scenario_3 initial eq_refl). Defined.

(** ** C4 *)

(** C4: every request is answered by exactly one response under its own id.
    When the handler throws, the response is an error response of kind
    [HandlerError]; when the handler returns, its result is the response's
    result as it is, an [isError] flag included.  A sequence of requests gets
    one response each, in order, and a process that has started serves any
    requests without an exit status. *)
Theorem handler_errors_become_responses (reg : Registry) (req : Request) (w : World) :
  (exists response w',
     dispatch reg req w = (Normal response, w') /\ response_id response = id req)
  /\
  (forall d e w',
     find (fun d => String.eqb (name d) (op req)) reg = Some d ->
     violations (schema d) (params req) = [] ->
     handler d (params req) (calling d w) = (Abrupt e, w') ->
     exists response,
       dispatch reg req w = (Normal response, w') /\
       response_id response = id req /\
       isError (result response) = Some true /\
       error response = Some (HandlerError (error_to_string e)))
  /\
  (forall d r w',
     find (fun d => String.eqb (name d) (op req)) reg = Some d ->
     violations (schema d) (params req) = [] ->
     handler d (params req) (calling d w) = (Normal r, w') ->
     dispatch reg req w =
       (Normal {| response_id := id req; result := r; error := None |}, w'))
  /\
  (forall requests,
     exists responses w',
       serve reg requests w = (Normal responses, w') /\
       map response_id responses = map id requests)
  /\
  (forall ds env requests,
     startup_failure ds env = None ->
     exit_code (node (program ds env) requests) = None /\
     map response_id (sent (node (program ds env) requests)) = map id requests).
Proof.
  split; [apply dispatch_replies |].
  split.
  { intros d e w' Hf Hv Hh.
    exists (error_response (id req) (HandlerError (error_to_string e))).
    rewrite dispatch_cases, Hf, Hv, Hh. now repeat split. }
  split.
  { intros d r w' Hf Hv Hh. now rewrite dispatch_cases, Hf, Hv, Hh. }
  split; [intros requests; apply serve_replies |].
  intros ds env requests Hok.
  pose proof (node_cases ds env requests) as Hn. cbv zeta in Hn.
  unfold startup_failure in Hok.
  destruct (first_duplicate [] ds); [discriminate |].
  destruct (transport_error env); [discriminate |].
  destruct (connect_error env); [discriminate |].
  destruct (serve_replies ds requests
              (logged ["MCP Template Server starting..."; "MCP Template Server running..."]
                 initial)) as [responses [w' [Hs Hids]]].
  rewrite Hs in Hn. rewrite Hn. now split.
Qed.

Example dispatch_throwing_handler :
  dispatch [throwing_tool] {| id := IdNumber 7; op := "throwing"; params := [] |} initial =
  (Normal {| response_id := IdNumber 7;
             result :=
               ToolResult
                 [ {| type := "text"; text := "HandlerError: Error: out of service" |} ]
                 (Some true);
             error := Some (HandlerError "Error: out of service") |},
   {| stderr := []; invoked := ["throwing"] |}).
Proof. reflexivity. Qed.

Example dispatch_refusing_handler :
  dispatch [refusing_tool] {| id := IdNumber 8; op := "refusing"; params := [] |} initial =
  (Normal {| response_id := IdNumber 8;
             result := ToolResult [ {| type := "text"; text := "refused" |} ] (Some true);
             error := None |},
   {| stderr := []; invoked := ["refusing"] |}).
Proof. reflexivity. Qed.

(** ** C5 *)

Lemma register_all_NoDup (ds : list Descriptor) (reg : Registry) (w w' : World) :
  register_all ds [] w = (Normal reg, w') -> NoDup (map name reg).
Proof.
  rewrite register_all_cases. cbn [map app].
  destruct (first_duplicate [] ds) eqn:Hd; [discriminate |].
  intros H. injection H as <- _. now apply first_duplicate_NoDup.
Qed.

(** C5: [register] with a name that is already present fails with
    [DuplicateOperationError] and otherwise inserts the descriptor, which
    [lookup] then returns; a registry built by registrations never holds two
    descriptors of one name; a program whose registrations repeat a name ends
    with status 1 before any handler is invoked or any response sent; and the
    four registrations of [src/index.ts] all succeed. *)
Theorem register_rejects_duplicates :
  (forall d reg w,
     registered (name d) reg = true ->
     register d reg w = (Abrupt (DuplicateOperationError (name d)), w))
  /\
  (forall d reg w,
     registered (name d) reg = false ->
     register d reg w = (Normal (reg ++ [d])%list, w) /\
     lookup (name d) (reg ++ [d])%list w = (Normal d, w))
  /\
  (forall ds reg w w',
     register_all ds [] w = (Normal reg, w') -> NoDup (map name reg))
  /\
  (forall ds env requests,
     ~ NoDup (map name ds) ->
     exit_code (node (program ds env) requests) = Some 1%Z /\
     sent (node (program ds env) requests) = [] /\
     invoked (world (node (program ds env) requests)) = [])
  /\
  (forall sampleText w,
     register_all (operations sampleText) [] w = (Normal (operations sampleText), w)).
Proof.
  split.
  { intros d reg w H. now rewrite register_cases, H. }
  split.
  { intros d reg w H. split; [now rewrite register_cases, H |].
    now apply lookup_after_register. }
  split; [exact register_all_NoDup |].
  split.
  { intros ds env requests Hdup.
    pose proof (node_cases ds env requests) as Hn. cbv zeta in Hn.
    destruct (first_duplicate [] ds) as [n |] eqn:Hd.
    - rewrite Hn. now repeat split.
    - apply first_duplicate_NoDup in Hd. contradiction. }
  intros sampleText w. now rewrite register_all_cases.
Qed.

Example register_twice :
  node (program [add_numbers_tool; add_numbers_tool]
          {| transport_error := None; connect_error := None |}) [scenario_1] =
  {| world :=
       {| stderr := ["DuplicateOperationError: add-numbers is already registered"];
          invoked := [] |};
     sent := [];
     exit_code := Some 1%Z |}.
Proof. reflexivity. Qed.

(** ** C6 *)

(** C6: when a startup step fails (a registration, the construction of the
    transport, or the connection), the process ends with status 1, its last
    diagnostic line reports the error, and it has sent no response; when no
    startup step fails the process has no exit status, whatever requests it
    serves. *)
Theorem startup_failure_is_fatal (ds : list Descriptor) (env : Env) (requests : list Request) :
  (forall e,
     startup_failure ds env = Some e ->
     exit_code (node (program ds env) requests) = Some 1%Z /\
     sent (node (program ds env) requests) = [] /\
     exists earlier prefix,
       stderr (world (node (program ds env) requests)) =
       (earlier ++ [(prefix ++ inspect e)%string])%list)
  /\
  (startup_failure ds env = None ->
   exit_code (node (program ds env) requests) = None)
  /\
  (forall code,
     exit_code (node (program ds env) requests) = Some code ->
     code = 1%Z /\ startup_failure ds env <> None).
Proof.
  pose proof (node_cases ds env requests) as Hn. cbv zeta in Hn.
  unfold startup_failure.
  destruct (first_duplicate [] ds) as [n |].
  { rewrite Hn. split; [| split].
    - intros e He. injection He as <-. repeat split.
      now exists [], "".
    - discriminate.
    - intros code Hc. injection Hc as <-. split; [reflexivity | discriminate]. }
  assert (Hmain : forall e0 : Error,
             node (program ds env) requests =
             {| world := logged ["MCP Template Server starting..."; main_diagnostic e0] initial;
                sent := []; exit_code := Some 1%Z |} ->
             forall o : option Error, o = Some e0 ->
             (forall e, o = Some e ->
                exit_code (node (program ds env) requests) = Some 1%Z /\
                sent (node (program ds env) requests) = [] /\
                exists earlier prefix,
                  stderr (world (node (program ds env) requests)) =
                  (earlier ++ [(prefix ++ inspect e)%string])%list) /\
             (o = None -> exit_code (node (program ds env) requests) = None) /\
             (forall code,
                exit_code (node (program ds env) requests) = Some code ->
                code = 1%Z /\ o <> None)).
  { intros e0 Hnode o ->. rewrite Hnode. split; [| split].
    - intros e He. injection He as <-. repeat split.
      now exists ["MCP Template Server starting..."], "Error starting MCP Template Server: ".
    - discriminate.
    - intros code Hc. injection Hc as <-. split; [reflexivity | discriminate]. }
  destruct (transport_error env) as [e0 |]; [now apply (Hmain e0) |].
  destruct (connect_error env) as [e0 |]; [now apply (Hmain e0) |].
  destruct (serve_replies ds requests
              (logged ["MCP Template Server starting..."; "MCP Template Server running..."]
                 initial)) as [responses [w' [Hs _]]].
  rewrite Hs in Hn. rewrite Hn. split; [| split].
  - discriminate.
  - reflexivity.
  - discriminate.
Qed.

Example index_ts_connect_fails :
  node (index_ts ""
          {| transport_error := None; connect_error := Some (JsError "Error" "EPIPE") |})
       [scenario_1] =
  {| world :=
       {| stderr := ["MCP Template Server starting...";
                     "Error starting MCP Template Server: Error: EPIPE"];
          invoked := [] |};
     sent := [];
     exit_code := Some 1%Z |}.
Proof. reflexivity. Qed.

(** ** C7 *)

(** C7: the result of the add-numbers handler depends on its two operands
    only: it is the same in any two worlds, the call changes nothing, and any
    number of calls in a row return the same result each time. *)
Theorem add_numbers_is_pure (a b : number) :
  (forall w1 w2, fst (add_numbers a b w1) = fst (add_numbers a b w2)) /\
  (forall w, snd (add_numbers a b w) = w) /\
  (forall n w, exists r, times n (add_numbers a b) w = (Normal (repeat r n), w)).
Proof.
  split; [reflexivity |]. split; [reflexivity |].
  intros n w. eexists. apply times_add_numbers.
Qed.

(** ** C8, C9 *)

(** C8: whatever the uri and whenever it is called, the sample-text handler
    returns one contents entry whose text is [sampleText]; two calls return
    the same text. *)
Theorem sample_text_is_fixed (sampleText : string) (uri1 uri2 : URL) (w1 w2 : World) :
  exists w1' w2',
    sample_text sampleText uri1 w1 =
      (Normal (ResourceResult
                 [ {| Resource.uri := href uri1; Resource.text := sampleText |} ] None),
       w1') /\
    sample_text sampleText uri2 w2 =
      (Normal (ResourceResult
                 [ {| Resource.uri := href uri2; Resource.text := sampleText |} ] None),
       w2').
Proof.
  do 2 eexists. split; apply sample_text_returns.
Qed.

(** C9: the [try] block of the sample-text handler completes normally in
    every world, so its [catch] block never runs, and the handler's result has
    no [isError] flag. *)
Theorem sample_text_never_fails (sampleText : string) (uri : URL) (w : World) :
  (exists r w', sample_text_try sampleText uri w = (Normal r, w')) /\
  (exists r w', sample_text sampleText uri w = (Normal r, w') /\ isError r = None) /\
  (forall e, fst (sample_text sampleText uri w) <>
             fst (sample_text_catch uri e w)).
Proof.
  split; [do 2 eexists; apply sample_text_try_returns |].
  split.
  - do 2 eexists. split; [apply sample_text_returns | reflexivity].
  - intros e. rewrite sample_text_returns. cbn. discriminate.
Qed.

(** ** C10 *)

(** C10: the result of the add-numbers handler holds exactly one content
    block, of type "text", and no [isError] flag. *)
Theorem add_numbers_one_text_block (a b : number) (w : World) :
  exists block,
    fst (add_numbers a b w) = Normal (ToolResult [block] None) /\
    type block = "text" /\
    isError (ToolResult [block] None) = None.
Proof.
  eexists. rewrite add_numbers_returns. cbn [fst]. split; [reflexivity |]. now split.
Qed.

(** * More of the code *)

(** ** Arithmetic of numbers that stand for integers *)

Section IntegerNumbers.

Local Open Scope Z_scope.

Lemma integer_value_sf (x : number) : integer_value x = sf_integer (Prim2SF x).
Proof. reflexivity. Qed.

Lemma digits2_size (p : positive) : digits2_pos p = Pos.size p.
Proof. induction p; cbn; now rewrite ?IHp. Qed.

Lemma digits2_log2 (p : positive) : Zpos (digits2_pos p) = Z.log2 (Zpos p) + 1.
Proof.
  rewrite digits2_size. destruct p; cbn [Z.log2 Pos.size]; lia.
Qed.

Lemma iter_xO (m d : positive) : Zpos (Pos.iter xO m d) = Zpos m * 2 ^ Zpos d.
Proof.
  induction d as [| d IH] using Pos.peano_ind.
  - cbn. lia.
  - rewrite Pos.iter_succ, Pos2Z.inj_succ, Z.pow_succ_r by lia.
    rewrite Pos2Z.inj_xO, IH. lia.
Qed.

Lemma shl_align_le (mx : positive) (ex ez : Z) :
  ez <= ex ->
  Zpos (fst (shl_align mx ex ez)) = Zpos mx * 2 ^ (ex - ez).
Proof.
  intros H. unfold shl_align.
  destruct (ez - ex) as [| d | d] eqn:Hd; cbn [fst].
  - replace (ex - ez) with 0 by lia. lia.
  - lia.
  - rewrite iter_xO. f_equal. f_equal. lia.
Qed.

Lemma shr_1_even (z : Z) :
  0 < z -> shr_1 (Build_shr_record (z * 2) false false) = Build_shr_record z false false.
Proof.
  intros H. destruct z as [| p | p]; try lia.
  replace (Zpos p * 2) with (Zpos (xO p)) by lia. reflexivity.
Qed.

Lemma shr_exact (j : positive) : forall z,
  0 < z ->
  iter_pos shr_1 j (Build_shr_record (z * 2 ^ Zpos j) false false) =
  Build_shr_record z false false.
Proof.
  induction j as [j IH | j IH |]; intros z Hz; cbn [iter_pos].
  - assert (Hp : 0 < 2 ^ Zpos j) by (apply Z.pow_pos_nonneg; lia).
    replace (z * 2 ^ Zpos j~1) with ((z * 2 ^ Zpos j * 2 ^ Zpos j) * 2).
    2:{ replace (Zpos j~1) with (Zpos j + Zpos j + 1) by lia.
        rewrite !Z.pow_add_r, Z.pow_1_r by lia. ring. }
    rewrite shr_1_even by nia. rewrite IH by nia. now apply IH.
  - assert (Hp : 0 < 2 ^ Zpos j) by (apply Z.pow_pos_nonneg; lia).
    replace (z * 2 ^ Zpos j~0) with (z * 2 ^ Zpos j * 2 ^ Zpos j).
    2:{ replace (Zpos j~0) with (Zpos j + Zpos j) by lia.
        rewrite !Z.pow_add_r by lia. ring. }
    rewrite IH by nia. now apply IH.
  - rewrite Z.pow_1_r. now apply shr_1_even.
Qed.

Lemma fexp64_normal (k : Z) : -1021 <= k -> fexp prec emax k = k - 53.
Proof. intros H. unfold fexp, emin, prec, emax. lia. Qed.

(** A mantissa with trailing zeros, at an exponent below its canonical one,
    rounds to itself. *)
Lemma binary_round_aux_exact (s : bool) (q : positive) (t j : Z) (mz : positive) :
  0 <= j ->
  Zpos mz = Zpos q * 2 ^ j ->
  Z.log2 (Zpos q) = 52 ->
  -1074 <= t <= 971 ->
  binary_round_aux prec emax s (Zpos mz) (t - j) loc_Exact = S754_finite s q t.
Proof.
  intros Hj Hmz Hq Ht.
  assert (Hdq : Zdigits2 (Zpos q) = 53) by (cbn [Zdigits2]; rewrite digits2_log2; lia).
  assert (Hdz : Zdigits2 (Zpos mz) = 53 + j).
  { cbn [Zdigits2]. rewrite digits2_log2, Hmz, Z.log2_mul_pow2 by lia. lia. }
  assert (Hf : fexp prec emax (53 + t) = t) by (unfold fexp, emin, prec, emax; lia).
  unfold binary_round_aux, shr_fexp.
  rewrite Hdz. replace (53 + j + (t - j)) with (53 + t) by lia. rewrite Hf.
  replace (t - (t - j)) with j by lia.
  assert (Hshr : shr (shr_record_of_loc (Zpos mz) loc_Exact) (t - j) j =
                 (Build_shr_record (Zpos q) false false, t)).
  { unfold shr, shr_record_of_loc. destruct j as [| jp | jp]; try lia.
    - f_equal; [| lia]. f_equal. rewrite Hmz. cbn. lia.
    - rewrite Hmz, shr_exact by lia. f_equal. lia. }
  rewrite Hshr. cbn [shr_m loc_of_shr_record round_nearest_even].
  rewrite Hdq, Hf, Z.sub_diag. cbn [shr shr_record_of_loc shr_m].
  unfold prec, emax. destruct (Z.leb_spec t (1024 - 53)); [reflexivity | lia].
Qed.

Lemma pow2_pos (k : Z) : 0 <= k -> 0 < 2 ^ k.
Proof. intros H. apply Z.pow_pos_nonneg; lia. Qed.

Lemma scaled_shifted (m e v K : Z) :
  0 <= K -> 0 <= e + K ->
  (scaled m e v <-> m * 2 ^ (e + K) = v * 2 ^ K).
Proof.
  intros HK HeK. unfold scaled.
  destruct (Z.le_gt_cases 0 e) as [He | He].
  - rewrite Z.max_r, Z.max_l by lia. rewrite Z.pow_0_r, Z.mul_1_r.
    rewrite Z.pow_add_r, Z.mul_assoc by lia.
    symmetry. apply Z.mul_cancel_r. apply Z.pow_nonzero; lia.
  - rewrite Z.max_l, Z.max_r by lia. rewrite Z.pow_0_r, Z.mul_1_r.
    replace K with (- e + (e + K)) at 2 by lia.
    rewrite (Z.pow_add_r 2 (- e) (e + K)), Z.mul_assoc by lia.
    symmetry. apply Z.mul_cancel_r. apply Z.pow_nonzero; lia.
Qed.

Lemma scaled_add (m1 m2 e v1 v2 : Z) :
  scaled m1 e v1 -> scaled m2 e v2 -> scaled (m1 + m2) e (v1 + v2).
Proof. unfold scaled. intros H1 H2. rewrite !Z.mul_add_distr_r. congruence. Qed.

Lemma scaled_opp (m e v : Z) : scaled m e v -> scaled (- m) e (- v).
Proof. unfold scaled. intros H. rewrite !Z.mul_opp_l. congruence. Qed.

Lemma scaled_shift (m E t v : Z) :
  t <= E -> scaled m E v -> scaled (m * 2 ^ (E - t)) t v.
Proof.
  intros Hle H.
  pose (K := Z.max 0 (- t)).
  apply (scaled_shifted _ _ _ K); [lia | lia |].
  apply (scaled_shifted _ _ _ K) in H; [| lia | lia].
  rewrite <- Z.mul_assoc, <- Z.pow_add_r by lia.
  replace (E - t + (t + K)) with (E + K) by lia. exact H.
Qed.

Lemma scaled_unique (m e v v' : Z) : scaled m e v -> scaled m e v' -> v = v'.
Proof.
  unfold scaled. intros H1 H2.
  assert (0 < 2 ^ Z.max 0 (- e)) by (apply pow2_pos; lia). nia.
Qed.

Lemma scaled_sign (m e v : Z) : scaled m e v -> (0 < m <-> 0 < v) /\ (m = 0 <-> v = 0).
Proof.
  unfold scaled. intros H.
  assert (0 < 2 ^ Z.max 0 (- e)) by (apply pow2_pos; lia).
  assert (0 < 2 ^ Z.max 0 e) by (apply pow2_pos; lia).
  split; split; intros; nia.
Qed.

Lemma scaled_log2 (m e v : Z) : 0 < m -> scaled m e v -> Z.log2 m + e = Z.log2 v.
Proof.
  intros Hm H. pose proof (proj1 (proj1 (scaled_sign _ _ _ H)) Hm) as Hv.
  unfold scaled in H.
  destruct (Z.le_gt_cases 0 e) as [He | He].
  - rewrite Z.max_r, Z.max_l, Z.pow_0_r, Z.mul_1_r in H by lia.
    rewrite <- H, Z.log2_mul_pow2 by lia. lia.
  - rewrite Z.max_l, Z.max_r, Z.pow_0_r, Z.mul_1_r in H by lia.
    rewrite H, Z.log2_mul_pow2 by lia. lia.
Qed.

(** Rounding an integer of at most 54 bits, however it is scaled, gives the
    53-bit number that stands for it. *)
Lemma binary_round_exact (s : bool) (p : positive) (E n : Z) :
  0 < n <= 2 ^ 53 ->
  scaled (Zpos p) E n ->
  exists q,
    binary_round prec emax s p E = S754_finite s q (Z.log2 n - 52) /\
    scaled (Zpos q) (Z.log2 n - 52) n /\
    Z.log2 (Zpos q) = 52.
Proof.
  intros Hn Hs.
  pose proof (scaled_log2 _ _ _ (Pos2Z.is_pos p) Hs) as HL.
  assert (HL0 : 0 <= Z.log2 n) by apply Z.log2_nonneg.
  assert (HL1 : Z.log2 n <= 53).
  { replace 53 with (Z.log2 (2 ^ 53)) by (rewrite Z.log2_pow2; lia).
    apply Z.log2_le_mono. lia. }
  set (t := Z.log2 n - 52) in *.
  unfold binary_round. rewrite digits2_log2.
  replace (Z.log2 (Zpos p) + 1 + E) with (Z.log2 n + 1) by lia.
  rewrite fexp64_normal by lia. replace (Z.log2 n + 1 - 53) with t by lia.
  destruct (Z.lt_ge_cases t E) as [Hlt | Hge].
  - (* shift left to 53 bits *)
    pose proof (shl_align_le p E t ltac:(lia)) as Hmz.
    assert (Hez : snd (shl_align p E t) = t).
    { unfold shl_align. destruct (t - E) eqn:Hd; try lia. reflexivity. }
    destruct (shl_align p E t) as [mz ez]. cbn [fst snd] in Hmz, Hez. subst ez.
    exists mz. split; [| split].
    + replace t with (t - 0) at 1 by lia.
      apply binary_round_aux_exact; try lia.
      rewrite Hmz, Z.log2_mul_pow2 by lia. lia.
    + rewrite Hmz. apply scaled_shift; [lia | exact Hs].
    + rewrite Hmz, Z.log2_mul_pow2 by lia. lia.
  - (* the low bits are zeros *)
    assert (Hsh : shl_align p E t = (p, E)).
    { unfold shl_align. destruct (t - E) eqn:Hd; try lia; reflexivity. }
    rewrite Hsh.
    assert (Hq : exists q, Zpos p = Zpos q * 2 ^ (t - E) /\ scaled (Zpos q) t n /\
                           Z.log2 (Zpos q) = 52).
    { destruct (Z.eq_dec (Z.log2 n) 53) as [H53 | H53].
      - assert (n = 2 ^ 53).
        { pose proof (Z.log2_spec n ltac:(lia)) as [Hlo _]. rewrite H53 in Hlo. lia. }
        subst n. exists (Z.to_pos (2 ^ 52)). 
        assert (Hz : Zpos (Z.to_pos (2 ^ 52)) = 2 ^ 52) by (apply Z2Pos.id; now apply pow2_pos).
        rewrite Hz. split; [| split].
        + apply (scaled_shifted _ _ _ (Z.max 0 (- E))) in Hs; [| lia | lia].
          assert (Ht : t = 1) by (unfold t; lia).
          rewrite Ht.
          assert (Hp0 : 0 < 2 ^ Z.max 0 (- E)) by (apply pow2_pos; lia).
          assert (Zpos p * 2 ^ (E + Z.max 0 (- E)) = 2 ^ 52 * 2 ^ (1 - E) * 2 ^ (E + Z.max 0 (- E))).
          { rewrite Hs. rewrite <- Z.mul_assoc, <- !Z.pow_add_r by lia.
            f_equal. lia. }
          assert (0 < 2 ^ (E + Z.max 0 (- E))) by (apply pow2_pos; lia).
          nia.
        + assert (Ht : t = 1) by (unfold t; lia). rewrite Ht. unfold scaled. cbn. reflexivity.
        + now rewrite Z.log2_pow2 by lia.
      - assert (Ht : t <= 0) by (unfold t; lia).
        exists (Z.to_pos (n * 2 ^ (- t))).
        assert (Hz : Zpos (Z.to_pos (n * 2 ^ (- t))) = n * 2 ^ (- t)).
        { apply Z2Pos.id. pose proof (pow2_pos (- t) ltac:(lia)). nia. }
        rewrite Hz. split; [| split].
        + apply (scaled_shifted _ _ _ (- E)) in Hs; [| lia | lia].
          rewrite Z.add_opp_diag_r, Z.pow_0_r, Z.mul_1_r in Hs.
          rewrite Hs, <- Z.mul_assoc, <- Z.pow_add_r by lia. f_equal. f_equal. lia.
        + apply (scaled_shifted _ _ _ (- t)); [lia | lia |].
          now rewrite Z.add_opp_diag_r, Z.pow_0_r, Z.mul_1_r.
        + rewrite Z.log2_mul_pow2 by lia. unfold t. lia. }
    destruct Hq as [q [Hp [Hsq Hlq]]].
    exists q. split; [| split; [exact Hsq | exact Hlq]].
    replace E with (t - (t - E)) at 1 by lia.
    apply binary_round_aux_exact; try lia; assumption.
Qed.

Lemma sf_integer_scaled (s : bool) (m : positive) (e v : Z) :
  sf_integer (S754_finite s m e) = Some v <-> scaled (cond_Zopp s (Zpos m)) e v.
Proof.
  cbn [sf_integer]. unfold scaled.
  destruct (Z.leb_spec 0 e) as [He | He].
  - rewrite Z.max_r, Z.max_l, Z.pow_0_r, Z.mul_1_r by lia. cbn [option_map].
    destruct s; cbn [cond_Zopp]; split; intros H.
    + injection H as <-. now rewrite Z.mul_opp_l.
    + f_equal. rewrite <- H. now rewrite Z.mul_opp_l.
    + now injection H.
    + now f_equal.
  - rewrite Z.max_l, Z.max_r, Z.pow_0_r, Z.mul_1_r by lia.
    assert (Hp : 0 < 2 ^ (- e)) by (apply pow2_pos; lia).
    set (P := 2 ^ (- e)) in *.
    destruct (Z.eqb_spec (Zpos m mod P) 0) as [Hm | Hm]; cbn [option_map].
    + pose proof (Z.div_mod (Zpos m) P ltac:(lia)) as Hdm. rewrite Hm in Hdm.
      destruct s; cbn [cond_Zopp]; split; intros H.
      * injection H as <-. nia.
      * f_equal. nia.
      * injection H as <-. nia.
      * f_equal. nia.
    + split; [discriminate |]. intros H. exfalso. apply Hm.
      destruct s; cbn [cond_Zopp] in H.
      * replace (Zpos m) with ((- v) * P) by lia. apply Z.mod_mul. lia.
      * rewrite H. apply Z.mod_mul. lia.
Qed.

Lemma cond_Zopp_mul (s : bool) (m k : Z) : cond_Zopp s (m * k) = cond_Zopp s m * k.
Proof. destruct s; cbn; lia. Qed.

Lemma binary_normalize_exact (sum E n : Z) :
  Z.abs n <= 2 ^ 53 ->
  scaled sum E n ->
  sf_integer (binary_normalize prec emax sum E false) = Some n.
Proof.
  intros Hn Hs. pose proof (scaled_sign _ _ _ Hs) as [Hpos Hzero].
  destruct sum as [| p | p]; cbn [binary_normalize].
  - cbn. f_equal. symmetry. now apply Hzero.
  - assert (0 < n) by (apply Hpos; lia).
    destruct (binary_round_exact false p E n ltac:(lia) Hs) as [q [Hr [Hq _]]].
    rewrite Hr. now apply sf_integer_scaled.
  - apply scaled_opp in Hs. cbn [Z.opp] in Hs.
    pose proof (scaled_sign _ _ _ Hs) as [Hpos' _].
    assert (0 < - n) by (apply Hpos'; lia).
    destruct (binary_round_exact true p E (- n) ltac:(lia) Hs) as [q [Hr [Hq _]]].
    rewrite Hr. apply sf_integer_scaled. cbn [cond_Zopp].
    apply scaled_opp in Hq. now rewrite Z.opp_involutive in Hq.
Qed.

Lemma aligned_scaled (s : bool) (m : positive) (e ez v : Z) :
  ez <= e ->
  scaled (cond_Zopp s (Zpos m)) e v ->
  scaled (cond_Zopp s (Zpos (fst (shl_align m e ez)))) ez v.
Proof.
  intros Hle H. rewrite shl_align_le, cond_Zopp_mul by exact Hle.
  now apply scaled_shift.
Qed.

Lemma SFadd_exact (x y : spec_float) (vx vy : Z) :
  sf_integer x = Some vx -> sf_integer y = Some vy ->
  Z.abs (vx + vy) <= 2 ^ 53 ->
  sf_integer (SFadd prec emax x y) = Some (vx + vy).
Proof.
  intros Hx Hy Hb.
  destruct x as [sx | sx | | sx mx ex]; try discriminate Hx;
    destruct y as [sy | sy | | sy my ey]; try discriminate Hy.
  - injection Hx as <-. injection Hy as <-. now destruct sx, sy.
  - injection Hx as <-. exact Hy.
  - injection Hy as <-. rewrite Z.add_0_r. exact Hx.
  - cbn [SFadd]. apply binary_normalize_exact; [exact Hb |].
    apply sf_integer_scaled in Hx, Hy.
    apply scaled_add; apply aligned_scaled; try assumption; lia.
Qed.

Lemma SFadd_comm (x y : spec_float) : SFadd prec emax x y = SFadd prec emax y x.
Proof.
  destruct x as [sx | sx | | sx mx ex], y as [sy | sy | | sy my ey];
    try reflexivity; try (now destruct sx, sy).
  cbn [SFadd]. now rewrite Z.min_comm, Z.add_comm.
Qed.

Lemma js_add_comm (a b : number) : js_add a b = js_add b a.
Proof.
  apply Prim2SF_inj. unfold js_add. rewrite !add_spec. apply SFadd_comm.
Qed.

Lemma js_add_exact (a b : number) (x y : Z) :
  integer_value a = Some x -> integer_value b = Some y ->
  Z.abs (x + y) <= 2 ^ 53 ->
  integer_value (js_add a b) = Some (x + y).
Proof.
  rewrite !integer_value_sf. unfold js_add. rewrite add_spec. apply SFadd_exact.
Qed.

Lemma number_to_string_zero_right (a : number) :
  number_to_string (js_add a zero) = number_to_string a.
Proof.
  unfold number_to_string, js_add. rewrite add_spec.
  change (Prim2SF zero) with (S754_zero false).
  destruct (Prim2SF a) as [s | s | | s m e]; try reflexivity. now destruct s.
Qed.

End IntegerNumbers.

(** ** The sum of add-numbers *)

(** X1: swapping the operands of add-numbers swaps them in the text and
    leaves the reported sum as it is. *)
Theorem add_numbers_swapped (a b : number) (w : World) :
  add_numbers b a w =
  (Normal (ToolResult
             [ {| type := "text";
                  text := "The sum of " ++ number_to_string b ++ " and " ++
                          number_to_string a ++ " is " ++
                          number_to_string (js_add a b) |} ]
             None), w).
Proof.
  rewrite add_numbers_returns. unfold sum_text. now rewrite (js_add_comm b a).
Qed.

(** X2: when the operands stand for integers whose sum is at most 2^53 in
    absolute value, the number the text reports as the sum stands for their
    arithmetic sum. *)
Theorem add_numbers_exact_on_integers (a b : number) (x y : Z) (w : World) :
  integer_value a = Some x ->
  integer_value b = Some y ->
  (Z.abs (x + y) <= 2 ^ 53)%Z ->
  exists sum,
    add_numbers a b w =
    (Normal (ToolResult
               [ {| type := "text";
                    text := "The sum of " ++ number_to_string a ++ " and " ++
                            number_to_string b ++ " is " ++ number_to_string sum |} ]
               None), w) /\
    integer_value sum = Some (x + y)%Z.
Proof.
  intros Ha Hb Hsum. exists (js_add a b). split; [reflexivity |].
  now apply js_add_exact.
Qed.

Lemma add_numbers_exact_on_2_and_3 :
  exists sum,
    add_numbers 2%float 3%float initial =
    (Normal (ToolResult
               [ {| type := "text";
                    text := "The sum of " ++ number_to_string 2%float ++ " and " ++
                            number_to_string 3%float ++ " is " ++ number_to_string sum |} ]
               None), initial) /\
    integer_value sum = Some 5%Z.
Proof.
  apply (add_numbers_exact_on_integers 2%float 3%float 2 3 initial);
    [reflexivity | reflexivity | discriminate].
Defined.

(** X3: adding zero reports the other operand as the sum. *)
Theorem add_numbers_zero (a : number) (w : World) :
  add_numbers a zero w =
  (Normal (ToolResult
             [ {| type := "text";
                  text := "The sum of " ++ number_to_string a ++ " and 0 is " ++
                          number_to_string a |} ]
             None), w).
Proof.
  rewrite add_numbers_returns. unfold sum_text.
  rewrite number_to_string_zero_right.
  replace (number_to_string zero) with "0" by (vm_compute; reflexivity).
  reflexivity.
Qed.

Lemma number_to_string_nan (x : number) :
  Prim2SF x = S754_nan -> number_to_string x = "NaN".
Proof. intros H. unfold number_to_string. now rewrite H. Qed.

Lemma is_nan_Prim2SF (x : number) : is_nan x = true -> Prim2SF x = S754_nan.
Proof. intros H. unfold Prim2SF. now rewrite H. Qed.

(** X4: when an operand is not a number, or the operands are the two
    infinities of opposite sign, add-numbers still returns a success result,
    and its text reports NaN as the sum. *)
Theorem add_numbers_of_no_number (a b : number) (w : World) :
  is_nan a = true \/ is_nan b = true \/
  (a = infinity /\ b = neg_infinity) \/ (a = neg_infinity /\ b = infinity) ->
  add_numbers a b w =
  (Normal (ToolResult
             [ {| type := "text";
                  text := "The sum of " ++ number_to_string a ++ " and " ++
                          number_to_string b ++ " is NaN" |} ]
             None), w).
Proof.
  intros H. rewrite add_numbers_returns. unfold sum_text.
  replace (number_to_string (js_add a b)) with "NaN"; [reflexivity |].
  symmetry. apply number_to_string_nan. unfold js_add. rewrite add_spec.
  destruct H as [H | [H | [[-> ->] | [-> ->]]]]; try reflexivity.
  - now rewrite (is_nan_Prim2SF a H).
  - rewrite (is_nan_Prim2SF b H). now destruct (Prim2SF a).
Qed.

Lemma add_numbers_of_opposite_infinities :
  add_numbers infinity neg_infinity initial =
  (Normal (ToolResult
             [ {| type := "text"; text := "The sum of Infinity and -Infinity is NaN" |} ]
             None), initial).
Proof.
  rewrite (add_numbers_of_no_number infinity neg_infinity initial
             (or_intror (or_intror (or_introl (conj eq_refl eq_refl))))).
  vm_compute. reflexivity.
Defined.

(** ** The prompts *)

Lemma append_assoc (s1 s2 s3 : string) : (s1 ++ s2) ++ s3 = s1 ++ (s2 ++ s3).
Proof. induction s1 as [| c s1 IH]; cbn; [reflexivity | now rewrite IH]. Qed.

Lemma length_append (s1 s2 : string) :
  String.length (s1 ++ s2) = String.length s1 + String.length s2.
Proof. induction s1 as [| c s1 IH]; cbn; [reflexivity | now rewrite IH]. Qed.

Lemma append_grows (s1 s2 : string) : s2 <> "" -> s1 ++ s2 <> s1.
Proof.
  intros Hne Heq. apply (f_equal String.length) in Heq. rewrite length_append in Heq.
  destruct s2; [now apply Hne | cbn in Heq; lia].
Qed.

(** X5: the agenda prompt does not delimit its parameters: a title that ends
    in the template's own words and the shorter title with these words moved
    into the participants are different requests with the same prompt. *)
Theorem meeting_agenda_prompt_is_ambiguous (t p q d : string) (w1 w2 : World) :
  t ++ dquote ++ " meeting with " ++ p <> t /\
  fst (meeting_agenda_generator (t ++ dquote ++ " meeting with " ++ p) q d w1) =
  fst (meeting_agenda_generator t (p ++ dquote ++ " meeting with " ++ q) d w2).
Proof.
  split; [apply append_grows; discriminate |].
  unfold meeting_agenda_generator, bind, console_error, ret. cbn [fst].
  unfold lines. cbn [String.concat]. now rewrite !append_assoc.
Qed.

(** X6: the story prompt does not delimit its parameters either: topics that
    end in a line "Genre: x" and the genre "x", a line break and "Genre: g"
    give the same messages. *)
Theorem story_idea_prompt_is_ambiguous (t x g m : string) (w1 w2 : World) :
  t ++ nl ++ "Genre: " ++ x <> t /\
  fst (story_idea_generator (t ++ nl ++ "Genre: " ++ x) g m w1) =
  fst (story_idea_generator t (x ++ nl ++ "Genre: " ++ g) m w2).
Proof.
  split; [apply append_grows; discriminate |].
  unfold story_idea_generator, bind, console_error, ret. cbn [fst].
  unfold lines. cbn [String.concat]. now rewrite !append_assoc.
Qed.

(** ** Startup *)

(** X7: [main] lets no error escape: whatever the transport does, it writes
    the starting line and one more line, and either returns after the
    readiness line or exits with status 1 after the line that reports the
    error. *)
Theorem main_never_throws (env : Env) (server : Registry) (w : World) :
  main env server w =
    (Normal tt,
     logged ["MCP Template Server starting..."; "MCP Template Server running..."] w)
  \/
  exists e,
    main env server w =
    (Abrupt (Exited 1),
     logged ["MCP Template Server starting...";
             "Error starting MCP Template Server: " ++ inspect e] w).
Proof.
  rewrite main_cases.
  destruct (transport_error env) as [e |]; [right; now exists e |].
  destruct (connect_error env) as [e |]; [right; now exists e | now left].
Qed.

(** X8: with no request served, the readiness line is on the diagnostic
    channel exactly when the process has no exit status: it is written after
    a successful startup and never before a failure. *)
Theorem readiness_is_logged_iff_started (ds : list Descriptor) (env : Env) :
  In "MCP Template Server running..." (stderr (world (node (program ds env) []))) <->
  exit_code (node (program ds env) []) = None.
Proof.
  pose proof (node_cases ds env []) as Hn. cbv zeta in Hn. rewrite Hn. clear Hn.
  destruct (first_duplicate [] ds) as [n |].
  { cbn. split; [intros [H | []]; discriminate H | discriminate]. }
  destruct (transport_error env) as [e |].
  { cbn. split; [intros [H | [H | []]]; discriminate H | discriminate]. }
  destruct (connect_error env) as [e |].
  { cbn. split; [intros [H | [H | []]]; discriminate H | discriminate]. }
  cbn. split; [reflexivity | tauto].
Qed.

(** X9: registrations that succeed do not change the startup: the process
    starts, or fails to start, exactly as the program with no registrations
    (the first version of [src/index.ts]) does. *)
Theorem registrations_do_not_change_startup (ds : list Descriptor) (env : Env) :
  NoDup (map name ds) ->
  node (program ds env) [] = node (program [] env) [].
Proof.
  intros Hnd. apply first_duplicate_NoDup in Hnd.
  pose proof (node_cases ds env []) as H1. pose proof (node_cases [] env []) as H2.
  cbv zeta in H1, H2. rewrite H1, H2, Hnd. reflexivity.
Qed.

Lemma index_ts_starts_like_the_scaffold :
  node (index_ts "" {| transport_error := None; connect_error := None |}) [] =
  node (program [] {| transport_error := None; connect_error := None |}) [].
Proof.
  apply (registrations_do_not_change_startup (operations "")).
  apply first_duplicate_NoDup. reflexivity.
Defined.

(** ** Repeated reads of the resource *)

Lemma logged_logged (l1 l2 : list string) (w : World) :
  logged l2 (logged l1 w) = logged (l1 ++ l2)%list w.
Proof. unfold logged. cbn. now rewrite app_assoc. Qed.

Lemma logged_nil (w : World) : logged [] w = w.
Proof. unfold logged. rewrite app_nil_r. now destruct w. Qed.

(** X10: [n] reads of sample-text in a row return [n] equal results, none
    with [isError], and write 2n diagnostic lines, none of them the line of
    the [catch] block. *)
Theorem sample_text_repeated (sampleText : string) (uri : URL) (n : nat) (w : World) :
  times n (sample_text sampleText uri) w =
  (Normal (repeat (ResourceResult
                     [ {| Resource.uri := href uri; Resource.text := sampleText |} ] None) n),
   logged (List.concat (repeat [ "[Resource] Providing sample text content";
                            "[Resource] Successfully loaded sample text content" ] n)) w).
Proof.
  revert w. induction n as [| n IH]; intros w.
  - cbn. now rewrite logged_nil.
  - cbn [times repeat List.concat].
    rewrite (bind_normal _ _ _ _ _ (sample_text_returns sampleText uri w)).
    rewrite (bind_normal _ _ _ _ _ (IH _)).
    unfold ret. f_equal. rewrite <- logged_logged. f_equal.
    unfold logged. cbn. now rewrite <- app_assoc.
Qed.

(** ** Order and difference of numbers that stand for integers *)

Section IntegerOrder.

Local Open Scope Z_scope.

Lemma sf_integer_sign (s : bool) (m : positive) (e v : Z) :
  sf_integer (S754_finite s m e) = Some v ->
  scaled (Zpos m) e (if s then - v else v) /\ 0 < (if s then - v else v).
Proof.
  intros H. apply sf_integer_scaled in H.
  assert (Hs : scaled (Zpos m) e (if s then - v else v)).
  { destruct s; cbn [cond_Zopp] in H; [| exact H].
    apply scaled_opp in H. now rewrite Z.opp_involutive in H. }
  split; [exact Hs |]. apply (scaled_sign _ _ _ Hs). lia.
Qed.

Lemma valid_integer_mantissa (s : bool) (m : positive) (e v : Z) :
  valid_binary (S754_finite s m e) = true ->
  scaled (Zpos m) e v ->
  Z.log2 (Zpos m) = 52 /\ e = Z.log2 v - 52.
Proof.
  intros Hvalid Hs.
  pose proof (scaled_log2 _ _ _ (Pos2Z.is_pos m) Hs) as HL.
  pose proof (Z.log2_nonneg v) as Hv.
  cbn [valid_binary] in Hvalid. unfold bounded, canonical_mantissa in Hvalid.
  apply andb_prop in Hvalid as [Hc _]. apply Z.eqb_eq in Hc.
  rewrite digits2_log2, fexp64_normal in Hc by lia. lia.
Qed.

Lemma scaled_compare (m1 m2 e v1 v2 : Z) :
  scaled m1 e v1 -> scaled m2 e v2 -> (m1 ?= m2) = (v1 ?= v2).
Proof.
  unfold scaled.
  assert (HA : 0 < 2 ^ Z.max 0 e) by (apply pow2_pos; lia).
  assert (HB : 0 < 2 ^ Z.max 0 (- e)) by (apply pow2_pos; lia).
  generalize dependent (2 ^ Z.max 0 e). generalize dependent (2 ^ Z.max 0 (- e)).
  intros B HB A HA H1 H2.
  destruct (Z.compare_spec m1 m2), (Z.compare_spec v1 v2); try reflexivity; nia.
Qed.

Lemma magnitude_compare (m1 m2 : positive) (e1 e2 v1 v2 : Z) :
  Z.log2 (Zpos m1) = 52 -> e1 = Z.log2 v1 - 52 ->
  Z.log2 (Zpos m2) = 52 -> e2 = Z.log2 v2 - 52 ->
  scaled (Zpos m1) e1 v1 -> scaled (Zpos m2) e2 v2 ->
  0 < v1 -> 0 < v2 ->
  match e1 ?= e2 with
  | Lt => Lt
  | Gt => Gt
  | Eq => Pos.compare_cont Eq m1 m2
  end = (v1 ?= v2).
Proof.
  intros Hm1 He1 Hm2 He2 Hs1 Hs2 Hv1 Hv2.
  destruct (Z.compare_spec e1 e2) as [Heq | Hlt | Hgt].
  - change (Pos.compare_cont Eq m1 m2) with (Zpos m1 ?= Zpos m2).
    rewrite <- Heq in Hs2. exact (scaled_compare _ _ e1 _ _ Hs1 Hs2).
  - symmetry. apply Z.compare_lt_iff. apply Z.log2_lt_cancel. lia.
  - symmetry. apply Z.compare_gt_iff. apply Z.log2_lt_cancel. lia.
Qed.

Lemma SFcompare_integers (x y : spec_float) (vx vy : Z) :
  valid_binary x = true -> valid_binary y = true ->
  sf_integer x = Some vx -> sf_integer y = Some vy ->
  SFcompare x y = Some (vx ?= vy).
Proof.
  intros Hvx Hvy Hx Hy.
  destruct x as [sx | sx | | sx mx ex]; try discriminate Hx;
    destruct y as [sy | sy | | sy my ey]; try discriminate Hy.
  - injection Hx as <-. injection Hy as <-. reflexivity.
  - injection Hx as <-. apply sf_integer_sign in Hy as [_ Hy].
    cbn [SFcompare]. f_equal. symmetry.
    destruct sy; [apply Z.compare_gt_iff | apply Z.compare_lt_iff]; lia.
  - injection Hy as <-. apply sf_integer_sign in Hx as [_ Hx].
    cbn [SFcompare]. f_equal. symmetry.
    destruct sx; [apply Z.compare_lt_iff | apply Z.compare_gt_iff]; lia.
  - apply sf_integer_sign in Hx as [Hsx Hpx]. apply sf_integer_sign in Hy as [Hsy Hpy].
    destruct (valid_integer_mantissa _ _ _ _ Hvx Hsx) as [Hmx Hex].
    destruct (valid_integer_mantissa _ _ _ _ Hvy Hsy) as [Hmy Hey].
    cbn [SFcompare]. f_equal.
    destruct sx, sy.
    + pose proof (magnitude_compare _ _ _ _ _ _ Hmx Hex Hmy Hey Hsx Hsy Hpx Hpy) as Hc.
      rewrite (Z.compare_antisym vy vx), <- (Z.compare_opp vx vy), <- Hc.
      destruct (ex ?= ey); reflexivity.
    + symmetry. apply Z.compare_lt_iff. lia.
    + symmetry. apply Z.compare_gt_iff. lia.
    + exact (magnitude_compare _ _ _ _ _ _ Hmx Hex Hmy Hey Hsx Hsy Hpx Hpy).
Qed.

Lemma js_gt_integers (a b : number) (x y : Z) :
  integer_value a = Some x -> integer_value b = Some y -> js_gt a b = (y <? x).
Proof.
  rewrite !integer_value_sf. intros Ha Hb. unfold js_gt. rewrite ltb_spec. unfold SFltb.
  rewrite (SFcompare_integers _ _ y x (Prim2SF_valid b) (Prim2SF_valid a) Hb Ha).
  reflexivity.
Qed.

Lemma js_ge_integers (a b : number) (x y : Z) :
  integer_value a = Some x -> integer_value b = Some y -> js_ge a b = (y <=? x).
Proof.
  rewrite !integer_value_sf. intros Ha Hb. unfold js_ge. rewrite leb_spec. unfold SFleb.
  rewrite (SFcompare_integers _ _ y x (Prim2SF_valid b) (Prim2SF_valid a) Hb Ha).
  unfold Z.leb. now destruct (y ?= x).
Qed.

Lemma sf_integer_opp (s : bool) (m : positive) (e v : Z) :
  sf_integer (S754_finite s m e) = Some v ->
  sf_integer (S754_finite (negb s) m e) = Some (- v).
Proof.
  intros H. apply sf_integer_scaled. apply sf_integer_scaled in H.
  apply scaled_opp in H. now destruct s; cbn [negb cond_Zopp] in *.
Qed.

Lemma SFsub_exact (x y : spec_float) (vx vy : Z) :
  sf_integer x = Some vx -> sf_integer y = Some vy ->
  Z.abs (vx - vy) <= 2 ^ 53 ->
  sf_integer (SFsub prec emax x y) = Some (vx - vy).
Proof.
  intros Hx Hy Hb.
  destruct x as [sx | sx | | sx mx ex]; try discriminate Hx;
    destruct y as [sy | sy | | sy my ey]; try discriminate Hy.
  - injection Hx as <-. injection Hy as <-. now destruct sx, sy.
  - injection Hx as <-. cbn [SFsub]. now apply sf_integer_opp.
  - injection Hy as <-. rewrite Z.sub_0_r. exact Hx.
  - cbn [SFsub]. apply binary_normalize_exact; [exact Hb |].
    apply sf_integer_scaled in Hx, Hy.
    unfold Z.sub. apply scaled_add; [| apply scaled_opp];
      apply aligned_scaled; try assumption; lia.
Qed.

Lemma js_sub_exact (a b : number) (x y : Z) :
  integer_value a = Some x -> integer_value b = Some y ->
  Z.abs (x - y) <= 2 ^ 53 ->
  integer_value (js_sub a b) = Some (x - y).
Proof.
  rewrite !integer_value_sf. unfold js_sub. rewrite sub_spec. apply SFsub_exact.
Qed.

End IntegerOrder.

(** ** The rate limiter *)

Lemma throttle_reset (clock : Clock) (this : RateLimiter) (w : World) :
  js_gt (js_sub (now clock) (lastRequestTime this)) (timeWindowMs this) = true ->
  throttle clock this w =
  (Normal {| limiter :=
               {| lastRequestTime := now clock;
                  requestsInWindow := 0%float;
                  maxRequests := maxRequests this;
                  timeWindowMs := timeWindowMs this |};
             waited := None |}, w).
Proof. intros H. unfold throttle. now rewrite H. Qed.

Lemma throttle_wait (clock : Clock) (this : RateLimiter) (w : World) :
  js_gt (js_sub (now clock) (lastRequestTime this)) (timeWindowMs this) = false ->
  js_ge (requestsInWindow this) (maxRequests this) = true ->
  throttle clock this w =
  (Normal {| limiter :=
               {| lastRequestTime := resumed clock;
                  requestsInWindow := 0%float;
                  maxRequests := maxRequests this;
                  timeWindowMs := timeWindowMs this |};
             waited :=
               Some (js_sub (timeWindowMs this)
                       (js_sub (now clock) (lastRequestTime this))) |},
   logged [ "[Rate Limit] Throttling for " ++
            number_to_string
              (js_sub (timeWindowMs this) (js_sub (now clock) (lastRequestTime this))) ++
            "ms" ] w).
Proof. intros H1 H2. unfold throttle. now rewrite H1, H2. Qed.

Lemma throttle_count (clock : Clock) (this : RateLimiter) (w : World) :
  js_gt (js_sub (now clock) (lastRequestTime this)) (timeWindowMs this) = false ->
  js_ge (requestsInWindow this) (maxRequests this) = false ->
  throttle clock this w =
  (Normal {| limiter :=
               {| lastRequestTime := lastRequestTime this;
                  requestsInWindow := js_add (requestsInWindow this) 1%float;
                  maxRequests := maxRequests this;
                  timeWindowMs := timeWindowMs this |};
             waited := None |}, w).
Proof. intros H1 H2. unfold throttle. now rewrite H1, H2. Qed.

(** X11: the limiter keeps its counter between 0 and [maxRequests]: whatever
    the clock shows, a call of [throttle] on a limiter whose counter and
    limit are integers with 0 <= counter <= limit <= 2^53 returns a limiter
    with the same limit and window and a counter in the same range. *)
Theorem throttle_keeps_the_count_bounded
        (clock : Clock) (this : RateLimiter) (c limit : Z) (w : World) :
  integer_value (requestsInWindow this) = Some c ->
  integer_value (maxRequests this) = Some limit ->
  (0 <= c <= limit)%Z -> (limit <= 2 ^ 53)%Z ->
  exists next w' c',
    throttle clock this w = (Normal next, w') /\
    maxRequests (limiter next) = maxRequests this /\
    timeWindowMs (limiter next) = timeWindowMs this /\
    integer_value (requestsInWindow (limiter next)) = Some c' /\
    (0 <= c' <= limit)%Z.
Proof.
  intros Hc Hl Hrange Hmax.
  destruct (js_gt (js_sub (now clock) (lastRequestTime this)) (timeWindowMs this)) eqn:Hgt.
  { do 2 eexists. exists 0%Z. rewrite (throttle_reset _ _ _ Hgt).
    repeat split; try reflexivity; lia. }
  destruct (js_ge (requestsInWindow this) (maxRequests this)) eqn:Hge.
  { do 2 eexists. exists 0%Z. rewrite (throttle_wait _ _ _ Hgt Hge).
    repeat split; try reflexivity; lia. }
  pose proof Hge as Hlt. rewrite (js_ge_integers _ _ _ _ Hc Hl) in Hlt.
  apply Z.leb_gt in Hlt.
  do 2 eexists. exists (c + 1)%Z. rewrite (throttle_count _ _ _ Hgt Hge).
  repeat split; try reflexivity; try lia.
  cbn [limiter requestsInWindow]. apply js_add_exact; [exact Hc | reflexivity | lia].
Qed.

Lemma the_example_limiter_is_bounded :
  exists next w' c',
    throttle {| now := 1700000000000%float; resumed := 1700000001000%float |}
      (new_RateLimiter 5%float 1000%float) initial = (Normal next, w') /\
    maxRequests (limiter next) = 5%float /\
    timeWindowMs (limiter next) = 1000%float /\
    integer_value (requestsInWindow (limiter next)) = Some c' /\
    (0 <= c' <= 5)%Z.
Proof.
  apply (throttle_keeps_the_count_bounded
           {| now := 1700000000000%float; resumed := 1700000001000%float |}
           (new_RateLimiter 5%float 1000%float) 0 5 initial);
    [reflexivity | reflexivity | split; discriminate | vm_compute; discriminate].
Defined.




(** X13: a call that has to wait waits until the window that began at
    [lastRequestTime] is over: with integer clock, window, counter and limit,
    the delay it gives to the timer is the window less the time elapsed, it
    says so on the diagnostic channel, and the next window begins at the
    clock reading after the wait, with the counter at 0. *)
Theorem throttle_waits_for_the_rest_of_the_window
        (clock : Clock) (this : RateLimiter) (last t W c limit : Z) (w : World) :
  integer_value (lastRequestTime this) = Some last ->
  integer_value (now clock) = Some t ->
  integer_value (timeWindowMs this) = Some W ->
  integer_value (requestsInWindow this) = Some c ->
  integer_value (maxRequests this) = Some limit ->
  (Z.abs (t - last) <= 2 ^ 53)%Z -> (Z.abs (W - (t - last)) <= 2 ^ 53)%Z ->
  (t - last <= W)%Z -> (limit <= c)%Z ->
  exists delay,
    throttle clock this w =
      (Normal {| limiter :=
                   {| lastRequestTime := resumed clock;
                      requestsInWindow := 0%float;
                      maxRequests := maxRequests this;
                      timeWindowMs := timeWindowMs this |};
                 waited := Some delay |},
       logged [ "[Rate Limit] Throttling for " ++ number_to_string delay ++ "ms" ] w) /\
    integer_value delay = Some (W - (t - last))%Z.
Proof.
  intros Hlast Ht HW Hc Hl Hb1 Hb2 Hin Hfull.
  pose proof (js_sub_exact _ _ _ _ Ht Hlast Hb1) as Hel.
  assert (Hgt : js_gt (js_sub (now clock) (lastRequestTime this)) (timeWindowMs this) = false).
  { rewrite (js_gt_integers _ _ _ _ Hel HW). apply Z.ltb_ge. lia. }
  assert (Hge : js_ge (requestsInWindow this) (maxRequests this) = true).
  { rewrite (js_ge_integers _ _ _ _ Hc Hl). apply Z.leb_le. lia. }
  eexists. split; [apply (throttle_wait _ _ _ Hgt Hge) |].
  now apply js_sub_exact.
Qed.

Lemma the_example_limiter_waits_400 :
  exists delay,
    throttle {| now := 1700000000600%float; resumed := 1700000001000%float |}
      {| lastRequestTime := 1700000000000%float; requestsInWindow := 5%float;
         maxRequests := 5%float; timeWindowMs := 1000%float |} initial =
      (Normal {| limiter :=
                   {| lastRequestTime := 1700000001000%float;
                      requestsInWindow := 0%float;
                      maxRequests := 5%float;
                      timeWindowMs := 1000%float |};
                 waited := Some delay |},
       logged [ "[Rate Limit] Throttling for " ++ number_to_string delay ++ "ms" ] initial) /\
    integer_value delay = Some 400%Z.
Proof.
  apply (throttle_waits_for_the_rest_of_the_window
           {| now := 1700000000600%float; resumed := 1700000001000%float |}
           {| lastRequestTime := 1700000000000%float; requestsInWindow := 5%float;
              maxRequests := 5%float; timeWindowMs := 1000%float |}
           1700000000000 1700000000600 1000 5 5 initial);
    try reflexivity; vm_compute; discriminate.
Defined.

(** ** The priority labels *)

(** X14: [getPriorityLabel] gives a label exactly to the integers 0 to 4, in
    the order no priority, low, medium, high, urgent, and the empty string to
    every other number. *)
Theorem getPriorityLabel_cases (priority : number) :
  getPriorityLabel priority =
  match integer_value priority with
  | Some 0%Z => "(No priority)"
  | Some 1%Z => "(Low)"
  | Some 2%Z => "(Medium)"
  | Some 3%Z => "(High)"
  | Some 4%Z => "(Urgent)"
  | _ => ""
  end.
Proof.
  unfold getPriorityLabel, at_index.
  destruct (integer_value priority) as [[| p | p] |]; try reflexivity.
  cbn [Z.leb Z.compare].
  destruct p as [[[p | p |] | [p | p |] |] | [[p | p |] | [p | p |] |] |];
    try reflexivity;
    cbn [Z.to_nat];
    rewrite (proj2 (nth_error_None _ _))
      by (cbn [Datatypes.length];
          repeat (rewrite Pos2Nat.inj_xI || rewrite Pos2Nat.inj_xO);
          pose proof (Pos2Nat.is_pos p); lia);
    reflexivity.
Qed.
(** ** The text of numbers that stand for integers

    [Number::toString] renders a number that stands for an integer of
    magnitude at most 2^53 as the decimal digits of that integer: the digit
    search stops at the first count of digits that leaves a multiple of a
    power of ten, and the layout appends the zeros left out. *)

Section IntegerText.

Local Open Scope Z_scope.

Lemma uint_app_cons (d x : Decimal.uint) :
  Decimal.app (Decimal.D0 d) x = Decimal.D0 (Decimal.app d x) /\ Decimal.app (Decimal.D1 d) x = Decimal.D1 (Decimal.app d x) /\
  Decimal.app (Decimal.D2 d) x = Decimal.D2 (Decimal.app d x) /\ Decimal.app (Decimal.D3 d) x = Decimal.D3 (Decimal.app d x) /\
  Decimal.app (Decimal.D4 d) x = Decimal.D4 (Decimal.app d x) /\ Decimal.app (Decimal.D5 d) x = Decimal.D5 (Decimal.app d x) /\
  Decimal.app (Decimal.D6 d) x = Decimal.D6 (Decimal.app d x) /\ Decimal.app (Decimal.D7 d) x = Decimal.D7 (Decimal.app d x) /\
  Decimal.app (Decimal.D8 d) x = Decimal.D8 (Decimal.app d x) /\ Decimal.app (Decimal.D9 d) x = Decimal.D9 (Decimal.app d x).
Proof.
  repeat split; apply DecimalFacts.to_list_inj; cbn [DecimalFacts.to_list]; now rewrite !DecimalFacts.app_spec.
Qed.

Lemma string_of_uint_app (d x : Decimal.uint) :
  NilEmpty.string_of_uint (Decimal.app d x) =
  NilEmpty.string_of_uint d ++ NilEmpty.string_of_uint x.
Proof.
  induction d;
    [ now rewrite DecimalFacts.app_nil_l | .. ];
    destruct (uint_app_cons d x) as (E0 & E1 & E2 & E3 & E4 & E5 & E6 & E7 & E8 & E9);
    rewrite ?E0, ?E1, ?E2, ?E3, ?E4, ?E5, ?E6, ?E7, ?E8, ?E9;
    cbn [NilEmpty.string_of_uint append]; now rewrite IHd.
Qed.

Lemma string_of_uint_nonnil (d : Decimal.uint) :
  d <> Decimal.Nil -> NilZero.string_of_uint d = NilEmpty.string_of_uint d.
Proof. now destruct d. Qed.

Lemma N_digit_cases (r : N) :
  (r < 10)%N ->
  r = 0%N \/ r = 1%N \/ r = 2%N \/ r = 3%N \/ r = 4%N \/ r = 5%N \/ r = 6%N \/ r = 7%N \/
  r = 8%N \/ r = 9%N.
Proof. lia. Qed.

Lemma of_uint_snoc (d : Decimal.uint) (r : N) :
  (r < 10)%N ->
  N.of_uint (Decimal.app d (digit_uint r)) = (10 * N.of_uint d + r)%N.
Proof.
  intros Hr. unfold N.of_uint. rewrite !DecimalPos.Unsigned.of_uint_alt.
  assert (E : forall x, DecimalFacts.to_list (Decimal.rev (Decimal.app d x)) = (List.rev (DecimalFacts.to_list x) ++ DecimalFacts.to_list (Decimal.rev d))%list).
  { intros x. now rewrite !DecimalFacts.rev_spec, DecimalFacts.app_spec, List.rev_app_distr. }
  destruct (N_digit_cases r Hr) as [-> | [-> | [-> | [-> | [-> | [-> | [-> | [-> | [-> | ->]]]]]]]]];
    cbn [digit_uint];
    match goal with
    | |- DecimalPos.Unsigned.of_lu (Decimal.rev (Decimal.app d (?D Decimal.Nil))) = _ =>
        replace (Decimal.rev (Decimal.app d (D Decimal.Nil))) with (D (Decimal.rev d))
          by (apply DecimalFacts.to_list_inj; now rewrite E)
    end; cbn [DecimalPos.Unsigned.of_lu]; lia.
Qed.

Lemma to_uint_head (p : positive) :
  exists l, DecimalFacts.to_list (Pos.to_uint p) = l /\ DecimalFacts.lunorm l = l /\ l <> nil /\ l <> DecimalFacts.lzero.
Proof.
  exists (DecimalFacts.to_list (Pos.to_uint p)). split; [reflexivity |].
  pose proof (DecimalPos.Unsigned.to_of (Pos.to_uint p)) as H.
  rewrite DecimalPos.Unsigned.of_to in H. cbn [N.to_uint] in H.
  repeat split.
  - now rewrite <- DecimalFacts.unorm_spec, <- H.
  - intros E. apply (DecimalPos.Unsigned.to_uint_nonnil p). apply DecimalFacts.to_list_inj. now rewrite E.
  - intros E. apply (DecimalPos.Unsigned.to_uint_nonzero p). apply DecimalFacts.to_list_inj. now rewrite E.
Qed.

Lemma lunorm_app (l x : list DecimalFacts.digits) :
  DecimalFacts.lunorm l = l -> l <> DecimalFacts.lzero -> l <> nil -> DecimalFacts.lunorm (l ++ x) = (l ++ x)%list.
Proof.
  intros H Hz Hn. destruct l as [| a l]; [easy |].
  destruct a; try reflexivity.
  exfalso. unfold DecimalFacts.lunorm in H. cbn [DecimalFacts.lnzhead] in H.
  destruct (DecimalFacts.lnzhead l) eqn:El.
  - now apply Hz.
  - pose proof (DecimalFacts.length_lnzhead l) as Hlen. rewrite El, H in Hlen. cbn in Hlen. lia.
Qed.

Lemma to_uint_snoc (q r : N) :
  (0 < q)%N -> (r < 10)%N ->
  N.to_uint (10 * q + r) = Decimal.app (N.to_uint q) (digit_uint r).
Proof.
  intros Hq Hr.
  rewrite <- (DecimalN.Unsigned.of_to q) at 1.
  rewrite <- of_uint_snoc by exact Hr.
  rewrite DecimalN.Unsigned.to_of.
  destruct q as [| p]; [lia |]. cbn [N.to_uint].
  destruct (to_uint_head p) as (l & El & Hl & Hn & Hz).
  apply DecimalFacts.to_list_inj. rewrite DecimalFacts.unorm_spec, DecimalFacts.app_spec, El.
  now apply lunorm_app.
Qed.

Lemma decimal_digit (r : Z) :
  0 <= r < 10 ->
  NilEmpty.string_of_uint (digit_uint (Z.to_N r)) = decimal r /\
  String.length (decimal r) = 1%nat.
Proof.
  intros Hr.
  assert (H : r = 0 \/ r = 1 \/ r = 2 \/ r = 3 \/ r = 4 \/ r = 5 \/ r = 6 \/ r = 7 \/
              r = 8 \/ r = 9) by lia.
  destruct H as [-> | [-> | [-> | [-> | [-> | [-> | [-> | [-> | [-> | ->]]]]]]]]];
    split; reflexivity.
Qed.

Lemma decimal_snoc (q r : Z) :
  0 < q -> 0 <= r < 10 -> decimal (10 * q + r) = decimal q ++ decimal r.
Proof.
  intros Hq Hr. unfold decimal at 1 2.
  replace (Z.to_N (10 * q + r)) with (10 * Z.to_N q + Z.to_N r)%N by lia.
  rewrite to_uint_snoc by lia.
  assert (Hnn : N.to_uint (Z.to_N q) <> Decimal.Nil).
  { destruct (Z.to_N q) eqn:E; [lia |]. apply DecimalPos.Unsigned.to_uint_nonnil. }
  rewrite (string_of_uint_nonnil (N.to_uint (Z.to_N q)) Hnn).
  rewrite string_of_uint_nonnil.
  - rewrite string_of_uint_app. f_equal. now apply decimal_digit.
  - intros E. apply (f_equal DecimalFacts.to_list) in E. rewrite DecimalFacts.app_spec in E.
    apply List.app_eq_nil in E as [E _]. apply Hnn. now apply DecimalFacts.to_list_inj.
Qed.

Lemma decimal_length (k : nat) (s : Z) :
  10 ^ Z.of_nat k <= s < 10 ^ (Z.of_nat k + 1) ->
  String.length (decimal s) = S k.
Proof.
  revert s. induction k as [| k IH]; intros s Hs.
  - apply decimal_digit. cbn in Hs. lia.
  - rewrite Nat2Z.inj_succ in Hs. unfold Z.succ in Hs.
    rewrite !Z.pow_add_r, Z.pow_1_r in Hs by lia.
    rewrite Z.pow_add_r, Z.pow_1_r in IH by lia.
    assert (HP : 0 < 10 ^ Z.of_nat k) by (apply Z.pow_pos_nonneg; lia).
    pose proof (Z.div_mod s 10 ltac:(lia)) as Hdm.
    pose proof (Z.mod_pos_bound s 10 ltac:(lia)) as Hmod.
    rewrite Hdm, decimal_snoc by lia.
    rewrite length_append, (IH (s / 10)) by lia.
    rewrite (proj2 (decimal_digit _ Hmod)). lia.
Qed.

Lemma decimal_zeros (j : nat) (s : Z) :
  0 < s -> decimal (s * 10 ^ Z.of_nat j) = decimal s ++ zeros j.
Proof.
  revert s. induction j as [| j IH]; intros s Hs.
  - cbn [zeros Z.of_nat]. rewrite Z.pow_0_r, Z.mul_1_r.
    clear. induction (decimal s) as [| c t IHt]; cbn; now rewrite <- ?IHt.
  - rewrite Nat2Z.inj_succ, Z.pow_succ_r by lia.
    replace (s * (10 * 10 ^ Z.of_nat j)) with ((10 * s + 0) * 10 ^ Z.of_nat j) by ring.
    rewrite IH, decimal_snoc by lia.
    change (decimal 0) with "0". cbn [zeros].
    now rewrite append_assoc.
Qed.
Lemma Qle_bool_compare (x y : Q) :
  Qle_bool x y = match (x ?= y)%Q with Gt => false | _ => true end.
Proof. reflexivity. Qed.

Lemma two_power_neg (k : Z) :
  0 <= k -> ((2 # 1) ^ (- k) == / inject_Z (2 ^ k))%Q.
Proof.
  intros H. rewrite Qpower_opp. apply Qinv_comp. symmetry. now apply Zpower_Qpower.
Qed.

Lemma ten_power_pos (k : Z) :
  0 <= k -> ((10 # 1) ^ k == inject_Z (10 ^ k))%Q.
Proof. intros H. symmetry. now apply Zpower_Qpower. Qed.

Lemma ten_power_neg (k : Z) :
  0 <= k -> ((10 # 1) ^ (- k) == / inject_Z (10 ^ k))%Q.
Proof.
  intros H. rewrite Qpower_opp. apply Qinv_comp. symmetry. now apply Zpower_Qpower.
Qed.

Lemma Qcompare_frac_l (A c D : Z) :
  0 < D ->
  (inject_Z A * / inject_Z D ?= inject_Z c)%Q = (A ?= c * D).
Proof.
  intros HD. destruct D as [| d | d]; try lia.
  unfold Qcompare. cbn. rewrite !Z.mul_1_r. reflexivity.
Qed.

Lemma Qcompare_frac_r (A c D : Z) :
  0 < D ->
  (inject_Z c ?= inject_Z A * / inject_Z D)%Q = (c * D ?= A).
Proof.
  intros HD. destruct D as [| d | d]; try lia.
  unfold Qcompare. cbn. rewrite !Z.mul_1_r. reflexivity.
Qed.

Lemma rounds_to_integer (m : positive) (e X c : Z) (q : Q) :
  0 < X -> e <= 0 -> Zpos m = X * 2 ^ (- e) -> (q == inject_Z c)%Q ->
  rounds_to m e q = (c =? X).
Proof.
  intros HX He Hm Hq. unfold rounds_to.
  set (below := if (Pos.eqb m 4503599627370496 && Z.ltb (-1074) e)%bool then 1 else 2).
  assert (Hbelow : 1 <= below <= 2) by (unfold below; destruct (_ && _)%bool; lia).
  clearbody below.
  assert (HP : 0 < 2 ^ (- e)) by (apply Z.pow_pos_nonneg; lia).
  set (D := 2 ^ (2 - e)).
  assert (HD : D = 4 * 2 ^ (- e)).
  { unfold D. replace (2 - e) with (2 + - e) by lia. rewrite Z.pow_add_r by lia. reflexivity. }
  assert (Hquarter : ((2 # 1) ^ (e - 2) == / inject_Z D)%Q).
  { replace (e - 2) with (- (2 - e)) by lia. apply two_power_neg. lia. }
  assert (H1 : ((inject_Z (4 * Zpos m - below) * (2 # 1) ^ (e - 2)) ?= q)%Q =
               (4 * Zpos m - below ?= c * D)).
  { rewrite Hq, Hquarter. apply Qcompare_frac_l. lia. }
  assert (H2 : (q ?= (inject_Z (4 * Zpos m - below) * (2 # 1) ^ (e - 2)))%Q =
               (c * D ?= 4 * Zpos m - below)).
  { rewrite Hq, Hquarter. apply Qcompare_frac_r. lia. }
  assert (H3 : ((inject_Z (4 * Zpos m + 2) * (2 # 1) ^ (e - 2)) ?= q)%Q =
               (4 * Zpos m + 2 ?= c * D)).
  { rewrite Hq, Hquarter. apply Qcompare_frac_l. lia. }
  assert (H4 : (q ?= (inject_Z (4 * Zpos m + 2) * (2 # 1) ^ (e - 2)))%Q =
               (c * D ?= 4 * Zpos m + 2)).
  { rewrite Hq, Hquarter. apply Qcompare_frac_r. lia. }
  rewrite !Qle_bool_compare, H1, H2, H3, H4.
  assert (H4m : 4 * Zpos m = X * D) by (rewrite HD, Hm; ring).
  rewrite H4m. clear H1 H2 H3 H4 Hquarter.
  assert (HD4 : 4 <= D) by lia.
  clearbody D. clear HD Hm H4m.
  destruct (Z.eqb_spec c X) as [-> | Hne].
  - assert (Ha : (X * D - below ?= X * D) = Lt) by (apply Z.compare_lt_iff; lia).
    assert (Hb : (X * D ?= X * D + 2) = Lt) by (apply Z.compare_lt_iff; lia).
    assert (Hc : (X * D ?= X * D - below) = Gt) by (apply Z.compare_gt_iff; lia).
    assert (Hd : (X * D + 2 ?= X * D) = Gt) by (apply Z.compare_gt_iff; lia).
    rewrite Ha, Hb, Hc, Hd. now destruct (Z.even (Zpos m)).
  - destruct (Z.lt_ge_cases c X) as [Hlt | Hge].
    + assert (Ha : (X * D - below ?= c * D) = Gt) by (apply Z.compare_gt_iff; nia).
      assert (Hc : (c * D ?= X * D - below) = Lt) by (apply Z.compare_lt_iff; nia).
      rewrite Ha, Hc. now destruct (Z.even (Zpos m)).
    + assert (Hb : (c * D ?= X * D + 2) = Gt) by (apply Z.compare_gt_iff; nia).
      assert (Hd : (X * D + 2 ?= c * D) = Lt) by (apply Z.compare_lt_iff; nia).
      rewrite Hb, Hd. destruct (Z.even (Zpos m)); [apply andb_false_r | ].
      now rewrite andb_false_r.
Qed.

Lemma Qcompare_inject_Z (a b : Z) : (inject_Z a ?= inject_Z b)%Q = (a ?= b).
Proof. unfold Qcompare. cbn. now rewrite !Z.mul_1_r. Qed.

Lemma Qle_bool_ten (n X : Z) (v : Q) :
  (v == inject_Z X)%Q -> 0 < X ->
  Qle_bool ((10 # 1) ^ n) v = if n <=? 0 then true else 10 ^ n <=? X.
Proof.
  intros Hv HX. rewrite Qle_bool_compare, Hv.
  destruct (Z.leb_spec n 0) as [Hn | Hn].
  - assert (E : ((10 # 1) ^ n == inject_Z 1 * / inject_Z (10 ^ (- n)))%Q).
    { rewrite Qmult_1_l. replace n with (- - n) at 1 by lia. apply ten_power_neg. lia. }
    assert (HP : 0 < 10 ^ (- n)) by (apply Z.pow_pos_nonneg; lia).
    rewrite E, Qcompare_frac_l by exact HP.
    destruct (Z.compare_spec 1 (X * 10 ^ (- n))); try reflexivity. nia.
  - rewrite ten_power_pos, Qcompare_inject_Z by lia.
    unfold Z.leb. now destruct (10 ^ n ?= X).
Qed.

Lemma decimal_exponent_integer (X N : Z) (v : Q) :
  (v == inject_Z X)%Q -> 1 <= N -> 10 ^ (N - 1) <= X < 10 ^ N ->
  forall (fuel : nat) (n : Z),
    n <= N -> N - n < Z.of_nat fuel -> decimal_exponent fuel n v = N.
Proof.
  intros Hv HN HX.
  assert (HX0 : 0 < X).
  { assert (0 < 10 ^ (N - 1)) by (apply Z.pow_pos_nonneg; lia). lia. }
  induction fuel as [| fuel IH]; intros n Hn Hfuel; [lia |].
  cbn [decimal_exponent]. rewrite (Qle_bool_ten n X v Hv HX0).
  destruct (Z.leb_spec n 0) as [Hn0 | Hn0]; cbn [negb].
  - apply IH; lia.
  - destruct (Z.leb_spec (10 ^ n) X) as [Hle | Hgt]; cbn [negb].
    + apply IH; [| lia].
      destruct (Z.eq_dec n N) as [-> | Hne]; lia.
    + destruct (Z.eq_dec n N) as [-> | Hne]; [reflexivity |].
      assert (10 ^ n <= 10 ^ (N - 1)) by (apply Z.pow_le_mono_r; lia). lia.
Qed.

Lemma value_integer (m : positive) (e X : Z) :
  e <= 0 -> Zpos m = X * 2 ^ (- e) ->
  (inject_Z (Zpos m) * (2 # 1) ^ e == inject_Z X)%Q.
Proof.
  intros He Hm.
  assert (HP : 0 < 2 ^ (- e)) by (apply Z.pow_pos_nonneg; lia).
  replace e with (- - e) at 1 by lia. rewrite two_power_neg by lia.
  rewrite Hm, inject_Z_mult. field.
  intros E. unfold Qeq in E. cbn in E. lia.
Qed.

Lemma shortest_step (fuel : nat) (k : Z) (m : positive) (e n : Z) :
  shortest (S fuel) k m e n =
  let v := (inject_Z (Zpos m) * (2 # 1) ^ e)%Q in
  let unit := ((10 # 1) ^ (n - k))%Q in
  let s := Qfloor (v / unit) in
  let down := (inject_Z s * unit)%Q in
  let up := (inject_Z (s + 1) * unit)%Q in
  let pick (t : Z) := if Z.eqb t (10 ^ k) then (1%Z, (n + 1)%Z) else (t, n) in
  match rounds_to m e down, rounds_to m e up with
  | true, false => pick s
  | false, true => pick (s + 1)%Z
  | true, true =>
      match ((v - down) ?= (up - v))%Q with
      | Lt => pick s
      | Gt => pick (s + 1)%Z
      | Eq => if Z.even s then pick s else pick (s + 1)%Z
      end
  | false, false => shortest fuel (k + 1)%Z m e n
  end.
Proof. reflexivity. Qed.

Lemma shortest_integer (m : positive) (e X N : Z) :
  e <= 0 -> Zpos m = X * 2 ^ (- e) -> 10 ^ (N - 1) <= X < 10 ^ N ->
  forall (fuel : nat) (k : Z),
    1 <= k <= N -> N - k < Z.of_nat fuel ->
    exists s j : Z,
      shortest fuel k m e N = (s, N) /\ 0 <= j <= N - k /\ X = s * 10 ^ j.
Proof.
  intros He Hm HX.
  pose proof (value_integer m e X He Hm) as Hv.
  induction fuel as [| fuel IH]; intros k Hk Hfuel; [lia |].
  assert (HN : 1 <= N) by lia.
  assert (HX0 : 0 < X).
  { assert (0 < 10 ^ (N - 1)) by (apply Z.pow_pos_nonneg; lia). lia. }
  rewrite shortest_step. cbv zeta.
  set (U := 10 ^ (N - k)).
  assert (HU : 0 < U) by (apply Z.pow_pos_nonneg; lia).
  assert (Hunit : ((10 # 1) ^ (N - k) == inject_Z U)%Q) by (apply ten_power_pos; lia).
  assert (Hs : Qfloor (inject_Z (Zpos m) * (2 # 1) ^ e / (10 # 1) ^ (N - k)) = X / U).
  { rewrite Zdiv_Qdiv. apply Qfloor_comp. now rewrite Hv, Hunit. }
  rewrite Hs.
  assert (Hdown : (inject_Z (X / U) * (10 # 1) ^ (N - k) == inject_Z (X / U * U))%Q)
    by now rewrite Hunit, inject_Z_mult.
  assert (Hup : (inject_Z (X / U + 1) * (10 # 1) ^ (N - k) == inject_Z ((X / U + 1) * U))%Q)
    by now rewrite Hunit, inject_Z_mult.
  rewrite (rounds_to_integer m e X _ _ HX0 He Hm Hdown).
  rewrite (rounds_to_integer m e X _ _ HX0 He Hm Hup).
  pose proof (Z.div_mod X U ltac:(lia)) as Hdm.
  pose proof (Z.mod_pos_bound X U HU) as Hmod.
  destruct (Z.eqb_spec ((X / U + 1) * U) X) as [Habs | _].
  { exfalso. rewrite Z.mul_add_distr_r, (Z.mul_comm (X / U) U) in Habs. lia. }
  destruct (Z.eqb_spec (X / U * U) X) as [Hexact | Hrest].
  - exists (X / U), (N - k). split; [| split; [lia | symmetry; exact Hexact]].
    assert (Hpow : 10 ^ N = 10 ^ k * U).
    { unfold U. rewrite <- Z.pow_add_r by lia. f_equal. lia. }
    destruct (Z.eqb_spec (X / U) (10 ^ k)) as [Hten | _]; [| reflexivity].
    rewrite Hten in Hexact. lia.
  - assert (Hlt : k < N).
    { destruct (Z.eq_dec k N) as [-> | Hne]; [| lia].
      exfalso. apply Hrest. unfold U. rewrite Z.sub_diag, Z.pow_0_r, Z.div_1_r. lia. }
    destruct (IH (k + 1) ltac:(lia) ltac:(lia)) as (s & j & Eq & Hj & Hsj).
    exists s, j. split; [exact Eq | split; [lia | exact Hsj]].
Qed.

Lemma decimal_size (X : Z) :
  0 < X -> exists k : nat, 10 ^ Z.of_nat k <= X < 10 ^ (Z.of_nat k + 1).
Proof.
  intros HX. assert (H0 : 0 <= X) by lia. revert HX.
  pattern X. apply Zlt_0_ind; [| exact H0]. clear X H0.
  intros X IH _ HX.
  destruct (Z.lt_ge_cases X 10) as [Hsmall | Hbig].
  - exists 0%nat. cbn. lia.
  - pose proof (Z.div_mod X 10 ltac:(lia)) as Hdm.
    pose proof (Z.mod_pos_bound X 10 ltac:(lia)) as Hmod.
    destruct (IH (X / 10) ltac:(lia) ltac:(lia)) as [k Hk].
    exists (S k). rewrite Nat2Z.inj_succ. unfold Z.succ.
    rewrite !Z.pow_add_r, !Z.pow_1_r in * by lia. lia.
Qed.

Lemma layout_integer (t N : Z) (j : nat) :
  0 < t -> 1 <= N <= 21 -> Z.of_nat j < N ->
  10 ^ (N - 1) <= t * 10 ^ Z.of_nat j < 10 ^ N ->
  layout (decimal t) N = decimal (t * 10 ^ Z.of_nat j).
Proof.
  intros Ht HN Hj Hbound.
  assert (HP : 0 < 10 ^ Z.of_nat j) by (apply Z.pow_pos_nonneg; lia).
  assert (Hlen : String.length (decimal t) = S (Z.to_nat (N - 1 - Z.of_nat j))).
  { apply decimal_length. rewrite Z2Nat.id by lia.
    replace (N - 1) with ((N - 1 - Z.of_nat j) + Z.of_nat j) in Hbound by lia.
    replace N with ((N - 1 - Z.of_nat j + 1) + Z.of_nat j) in Hbound at 2 by lia.
    rewrite !(Z.pow_add_r 10 _ (Z.of_nat j)) in Hbound by lia.
    split; [apply (Z.mul_le_mono_pos_r _ _ _ HP) | apply (Z.mul_lt_mono_pos_r _ _ _ HP)]; lia. }
  unfold layout. rewrite Hlen.
  replace (Z.of_nat (S (Z.to_nat (N - 1 - Z.of_nat j)))) with (N - Z.of_nat j) by lia.
  replace ((N - Z.of_nat j <=? N) && (N <=? 21))%bool with true
    by (symmetry; apply andb_true_intro; split; apply Z.leb_le; lia).
  replace (N - (N - Z.of_nat j)) with (Z.of_nat j) by lia.
  rewrite Nat2Z.id. symmetry. now apply decimal_zeros.
Qed.

Lemma digits_of_integer (m : positive) (e X : Z) :
  e <= 0 -> Zpos m = X * 2 ^ (- e) -> 0 < X <= 2 ^ 53 ->
  exists s n' : Z,
    shortest 17 1 m e
      (decimal_exponent 640 (-324) (inject_Z (Zpos m) * (2 # 1) ^ e)%Q) = (s, n') /\
    layout (decimal s) n' = decimal X.
Proof.
  intros He Hm [HX0 HX].
  destruct (decimal_size X HX0) as [k Hk].
  set (N := Z.of_nat k + 1) in *.
  assert (HN : 1 <= N <= 16).
  { split; [lia |].
    assert (Hlt : 10 ^ Z.of_nat k < 10 ^ 16) by (change (10 ^ 16) with 10000000000000000; change (2 ^ 53) with 9007199254740992 in HX; lia).
    apply Z.pow_lt_mono_r_iff in Hlt; lia. }
  assert (HXN : 10 ^ (N - 1) <= X < 10 ^ N).
  { unfold N. now replace (Z.of_nat k + 1 - 1) with (Z.of_nat k) by lia. }
  rewrite (decimal_exponent_integer X N _ (value_integer m e X He Hm) ltac:(lia) HXN)
    by (cbn; lia).
  destruct (shortest_integer m e X N He Hm HXN 17 1 ltac:(lia) ltac:(cbn; lia))
    as (s & j & Eq & Hj & Hs).
  exists s, N. split; [exact Eq |].
  assert (Hs0 : 0 < s).
  { assert (0 < 10 ^ j) by (apply Z.pow_pos_nonneg; lia). nia. }
  rewrite Hs in HXN |- *. rewrite <- (Z2Nat.id j) in HXN |- * by lia.
  apply layout_integer; lia.
Qed.

Lemma number_to_string_integer (a : number) (x : Z) :
  integer_value a = Some x -> Z.abs x <= 2 ^ 53 ->
  number_to_string a = integer_to_string x.
Proof.
  intros Hx Hbound. rewrite integer_value_sf in Hx.
  pose proof (Prim2SF_valid a) as Hvalid.
  unfold number_to_string.
  destruct (Prim2SF a) as [z | i | | s m e] eqn:Ea; try discriminate.
  - injection Hx as <-. reflexivity.
  - destruct (sf_integer_sign _ _ _ _ Hx) as [Hs HX0].
    set (X := if s then - x else x) in *.
    destruct (valid_integer_mantissa _ _ _ _ Hvalid Hs) as [Hm52 He].
    assert (HX : X <= 2 ^ 53) by (unfold X; destruct s; lia).
    assert (Hsign : integer_to_string x = (if s then "-" else "") ++ decimal X).
    { unfold integer_to_string, X. destruct s.
      - replace (x <? 0) with true by (symmetry; apply Z.ltb_lt; lia).
        now replace (Z.abs x) with (- x) by lia.
      - replace (x <? 0) with false by (symmetry; apply Z.ltb_ge; lia).
        now replace (Z.abs x) with x by lia. }
    rewrite Hsign.
    destruct (Z.le_gt_cases e 0) as [He0 | He1].
    + assert (Hm : Zpos m = X * 2 ^ (- e)).
      { unfold scaled in Hs. rewrite Z.max_l, Z.max_r in Hs by lia.
        now rewrite Z.pow_0_r, Z.mul_1_r in Hs. }
      destruct (digits_of_integer m e X He0 Hm ltac:(lia)) as (t & n' & -> & ->).
      reflexivity.
    + assert (HlogX : Z.log2 X <= 53).
      { rewrite <- (Z.log2_pow2 53) by lia. now apply Z.log2_le_mono. }
      assert (He' : e = 1) by lia.
      assert (HX' : X = 2 ^ 53).
      { assert (2 ^ Z.log2 X <= X) by (apply Z.log2_spec; lia).
        replace (Z.log2 X) with 53 in * by lia. lia. }
      unfold scaled in Hs. rewrite He', HX' in Hs. cbn in Hs.
      assert (Hm : m = 4503599627370496%positive) by lia.
      rewrite He', Hm, HX'. vm_compute. reflexivity.
Qed.

End IntegerText.

(** ** The text of add-numbers on integers *)

(** X15: on integers that a number holds exactly, the text of add-numbers is
    the one of decimal arithmetic: when the operands stand for integers [x]
    and [y], and [x], [y] and [x + y] are at most 2^53 in magnitude, the text
    is "The sum of x and y is x+y" with the three integers in decimal digits,
    which is the wording of the specification. *)
Theorem add_numbers_text_on_safe_integers (a b : number) (x y : Z) (w : World) :
  integer_value a = Some x ->
  integer_value b = Some y ->
  (Z.abs x <= 2 ^ 53)%Z -> (Z.abs y <= 2 ^ 53)%Z -> (Z.abs (x + y) <= 2 ^ 53)%Z ->
  add_numbers a b w =
    (Normal (ToolResult
               [ {| type := "text";
                    text := "The sum of " ++ integer_to_string x ++ " and " ++
                            integer_to_string y ++ " is " ++
                            integer_to_string (x + y) |} ]
               None), w) /\
  arithmetic_sum_text a b = Some (sum_text a b).
Proof.
  intros Ha Hb Hx Hy Hsum.
  pose proof (js_add_exact a b x y Ha Hb Hsum) as Hab.
  pose proof (number_to_string_integer a x Ha Hx) as Ta.
  pose proof (number_to_string_integer b y Hb Hy) as Tb.
  pose proof (number_to_string_integer (js_add a b) (x + y) Hab Hsum) as Tab.
  split.
  - unfold add_numbers, ret. now rewrite Ta, Tb, Tab.
  - unfold arithmetic_sum_text, sum_text. now rewrite Ha, Hb, Ta, Tb, Tab.
Qed.

Lemma add_numbers_text_of_minus_7_and_5 :
  add_numbers (-7)%float 5%float initial =
    (Normal (ToolResult
               [ {| type := "text"; text := "The sum of -7 and 5 is -2" |} ]
               None), initial) /\
  arithmetic_sum_text (-7)%float 5%float = Some (sum_text (-7)%float 5%float).
Proof.
  apply (add_numbers_text_on_safe_integers (-7)%float 5%float (-7) 5 initial);
    try reflexivity; vm_compute; discriminate.
Defined.

(** ** The line the rate limiter logs *)

(** X16: the line a waiting call writes names the delay in decimal digits:
    with integer clock, window, counter and limit, the diagnostic channel
    gets exactly "[Rate Limit] Throttling for <d>ms" with [d] the window less
    the time elapsed. *)
Theorem throttle_logs_the_delay_in_digits
        (clock : Clock) (this : RateLimiter) (last t W c limit : Z) (w : World) :
  integer_value (lastRequestTime this) = Some last ->
  integer_value (now clock) = Some t ->
  integer_value (timeWindowMs this) = Some W ->
  integer_value (requestsInWindow this) = Some c ->
  integer_value (maxRequests this) = Some limit ->
  (Z.abs (t - last) <= 2 ^ 53)%Z -> (W - (t - last) <= 2 ^ 53)%Z ->
  (t - last <= W)%Z -> (limit <= c)%Z ->
  snd (throttle clock this w) =
  logged [ "[Rate Limit] Throttling for " ++ decimal (W - (t - last)) ++ "ms" ] w.
Proof.
  intros Hlast Ht HW Hc Hl Hb1 Hb2 Hin Hfull.
  pose proof (js_sub_exact _ _ _ _ Ht Hlast Hb1) as Hel.
  assert (Hb3 : (Z.abs (W - (t - last)) <= 2 ^ 53)%Z) by lia.
  pose proof (js_sub_exact _ _ _ _ HW Hel Hb3) as Hwait.
  assert (Hgt : js_gt (js_sub (now clock) (lastRequestTime this)) (timeWindowMs this) = false).
  { rewrite (js_gt_integers _ _ _ _ Hel HW). apply Z.ltb_ge. lia. }
  assert (Hge : js_ge (requestsInWindow this) (maxRequests this) = true).
  { rewrite (js_ge_integers _ _ _ _ Hc Hl). apply Z.leb_le. lia. }
  rewrite (throttle_wait _ _ _ Hgt Hge). cbn [snd].
  rewrite (number_to_string_integer _ _ Hwait Hb3).
  unfold integer_to_string.
  replace (W - (t - last) <? 0)%Z with false by (symmetry; apply Z.ltb_ge; lia).
  now replace (Z.abs (W - (t - last))) with (W - (t - last))%Z by lia.
Qed.

Lemma the_example_limiter_logs_400ms :
  snd (throttle {| now := 1700000000600%float; resumed := 1700000001000%float |}
         {| lastRequestTime := 1700000000000%float; requestsInWindow := 5%float;
            maxRequests := 5%float; timeWindowMs := 1000%float |} initial) =
  logged [ "[Rate Limit] Throttling for 400ms" ] initial.
Proof.
  apply (throttle_logs_the_delay_in_digits
           {| now := 1700000000600%float; resumed := 1700000001000%float |}
           {| lastRequestTime := 1700000000000%float; requestsInWindow := 5%float;
              maxRequests := 5%float; timeWindowMs := 1000%float |}
           1700000000000 1700000000600 1000 5 5 initial);
    try reflexivity; vm_compute; discriminate.
Defined.
